(** * One-time-password model of the R-GRAM API: embedding and verification

    The development embeds the Mongoose model of [models/OTP.js] (schema,
    [pre('save')] hook and the statics [generateOTP], [createOTP],
    [verifyOTP], [resendOTP], [getOTPInfo], [cleanupExpiredOTPs]) as pure
    functions over an explicit collection, and settles what the
    specification states about issuance, verification and resend
    throttling: what the statics guarantee is proved, and where they
    fall short of it, what they do instead is proved. The second model
    of the repository, [lib/models/OTP.ts], is embedded beside it, and
    so are the callers of both: the controllers of the OTP routes, on
    [models/OTP.js], and the handlers of [pages/api/auth/otp], on
    [lib/models/OTP.ts].

    Conventions of the embedding:
    - the collection is the list of its documents in insertion order;
      [findOne] returns the first match with its position and [save] of a
      loaded document writes it back at that position;
    - instants ([Date]) are milliseconds since the epoch, in [Z];
    - the clock is read once per operation ([now]);
    - strings are sequences of code units below 256, on which
      [toLowerCase], [trim] and the class [\s] are embedded exactly;
      strings with a code unit from 256 on are outside the embedding;
    - instants are not confined to the range of [Date] (8.64e15 ms on
      either side of the epoch): a lifetime that takes [expiresAt] out
      of it makes [createOTP] of the code throw on an invalid date, so
      the embedding agrees with the code on an issuance whose
      [expiresAt] is within that range, and on every issuance that has
      returned;
    - the random choices of the libraries (the HOTP value behind
      [speakeasy.totp], the salt of [bcrypt.hash]) are explicit arguments;
    - [bcrypt] is abstract: a hash function, a comparison, and the two
      facts about them the proofs use;
    - the mailers are embedded on the [nodemailer] module, which has
      no member [createTransporter]; the handlers and controllers take
      the mailer as a field of their services, and [repository] is the
      services with the mailer of the source;
    - [save] validates the document first, whether it is new or was
      loaded by a query: the validators of every path of the schema are
      run on the values the document holds (the schema does not set
      [validateBeforeSave] or [validateModifiedOnly]), and a rejected
      document is not written;
    - [timestamps: true] also maintains [updatedAt]; no static reads it
      and it is left out of the record. *)

From Stdlib Require Import Ascii DecimalString.
From stdpp Require Import base numbers list strings.

Local Open Scope Z_scope.

(** ** JavaScript string primitives used by the schema *)

Module Js.

Definition charCode (c : ascii) : N := N_of_ascii c.

(** The code units below 256 that [toLowerCase] changes: [A]..[Z]
    (65..90), [À]..[Ö] (192..214) and [Ø]..[Þ] (216..222); each is
    mapped to the code unit 32 above it. *)
Definition is_upper (c : ascii) : bool :=
  (((65 <=? charCode c) && (charCode c <=? 90))
   || ((192 <=? charCode c) && (charCode c <=? 214))
   || ((216 <=? charCode c) && (charCode c <=? 222)))%N.

Definition lower_char (c : ascii) : ascii :=
  if is_upper c then ascii_of_N (charCode c + 32) else c.

(** [String.prototype.toLowerCase] *)
Fixpoint toLowerCase (s : string) : string :=
  match s with
  | EmptyString => EmptyString
  | String c s' => String (lower_char c) (toLowerCase s')
  end.

(** White space of [trim] and of the regular-expression class [\s]:
    TAB, LF, VT, FF, CR, SPACE and NBSP. *)
Definition is_space (c : ascii) : bool :=
  (((9 <=? charCode c) && (charCode c <=? 13))
   || (charCode c =? 32) || (charCode c =? 160))%N.

Fixpoint trimStart (s : string) : string :=
  match s with
  | EmptyString => EmptyString
  | String c s' => if is_space c then trimStart s' else s
  end.

Fixpoint trimEnd (s : string) : string :=
  match s with
  | EmptyString => EmptyString
  | String c s' =>
      match trimEnd s' with
      | EmptyString => if is_space c then EmptyString else String c EmptyString
      | t => String c t
      end
  end.

(** [String.prototype.trim] *)
Definition trim (s : string) : string := trimEnd (trimStart s).



(** [Number.prototype.toString(10)] on a non-negative integer. *)
Definition toString10 (n : N) : string :=
  NilZero.string_of_uint (N.to_uint n).

(** [s.substr(-k)]: the last [k] code units of [s] (all of [s] when it
    is shorter). *)
Definition substr_last (k : nat) (s : string) : string :=
  let l := String.list_ascii_of_string s in
  String.string_of_list_ascii (drop (length l - k)%nat l).

(** [new Array(k + 1).join('0')]: [k] zeros. *)
Definition zeros (k : nat) : string :=
  String.string_of_list_ascii (replicate k "0"%char).

End Js.

(** ** Regular expressions (the fragment the e-mail validator uses) *)

Module Regex.

Inductive re : Type :=
| Void : re                               (* matches nothing *)
| Eps : re                                (* the empty string *)
| Class (p : ascii → bool) : re           (* one code unit of a class *)
| Cat (r1 r2 : re) : re
| Alt (r1 r2 : re) : re
| Star (r : re) : re.

(** [x+] *)
Definition Plus (r : re) : re := Cat r (Star r).

Definition Lit (c : ascii) : re := Class (Ascii.eqb c).

Fixpoint nullable (r : re) : bool :=
  match r with
  | Void => false
  | Eps => true
  | Class _ => false
  | Cat r1 r2 => nullable r1 && nullable r2
  | Alt r1 r2 => nullable r1 || nullable r2
  | Star _ => true
  end.

(** Derivative of [r] by the code unit [c]. *)
Fixpoint deriv (c : ascii) (r : re) : re :=
  match r with
  | Void => Void
  | Eps => Void
  | Class p => if p c then Eps else Void
  | Cat r1 r2 =>
      if nullable r1
      then Alt (Cat (deriv c r1) r2) (deriv c r2)
      else Cat (deriv c r1) r2
  | Alt r1 r2 => Alt (deriv c r1) (deriv c r2)
  | Star r1 => Cat (deriv c r1) (Star r1)
  end.

(** [/^r$/.test(s)] *)
Fixpoint test (r : re) (s : string) : bool :=
  match s with
  | EmptyString => nullable r
  | String c s' => test (deriv c r) s'
  end.

(** The strings a regular expression matches, as lists of code units. *)
Inductive lang : re → list ascii → Prop :=
| lang_eps : lang Eps []
| lang_class p c : p c = true → lang (Class p) [c]
| lang_cat r1 r2 s1 s2 :
    lang r1 s1 → lang r2 s2 → lang (Cat r1 r2) (s1 ++ s2)
| lang_alt_l r1 r2 s : lang r1 s → lang (Alt r1 r2) s
| lang_alt_r r1 r2 s : lang r2 s → lang (Alt r1 r2) s
| lang_star_nil r : lang (Star r) []
| lang_star_cons r s1 s2 :
    lang r s1 → lang (Star r) s2 → lang (Star r) (s1 ++ s2).

End Regex.

(** ** Documents, schema and queries *)

Module OTP.

(** A document of the [OTP] collection, with the paths the schema
    declares. [code] holds what [save] stored. *)
Record OTPDoc : Type := mkOTP {
  email : string;
  code : string;
  purpose : string;
  expiresAt : Z;
  attempts : Z;
  isUsed : bool;
  createdAt : Z
}.

#[export] Instance OTPDoc_eq_dec : EqDecision OTPDoc.
Proof. solve_decision. Defined.

Abbreviation Collection := (list OTPDoc).

Definition set_code (v : string) (d : OTPDoc) : OTPDoc :=
  mkOTP (email d) v (purpose d) (expiresAt d) (attempts d) (isUsed d) (createdAt d).

Definition set_attempts (v : Z) (d : OTPDoc) : OTPDoc :=
  mkOTP (email d) (code d) (purpose d) (expiresAt d) v (isUsed d) (createdAt d).

Definition set_isUsed (v : bool) (d : OTPDoc) : OTPDoc :=
  mkOTP (email d) (code d) (purpose d) (expiresAt d) (attempts d) v (createdAt d).

(** *** Schema of the [email] path *)

(** [[^\s@]] *)
Definition not_space_at (c : ascii) : bool :=
  negb (Js.is_space c) && negb (Ascii.eqb c "@").

(** [/^[^\s@]+@[^\s@]+\.[^\s@]+$/] *)
Definition emailRegex : Regex.re :=
  Regex.Cat (Regex.Plus (Regex.Class not_space_at))
    (Regex.Cat (Regex.Lit "@")
       (Regex.Cat (Regex.Plus (Regex.Class not_space_at))
          (Regex.Cat (Regex.Lit ".")
             (Regex.Plus (Regex.Class not_space_at))))).

(** The setters [lowercase: true] and [trim: true]. Mongoose applies the
    setters of a path both when the path of a document is assigned and
    when a filter on the path is cast. *)
Definition email_setters (v : string) : string := Js.trim (Js.toLowerCase v).

(** *** Schema of the [purpose] path *)

Definition purpose_enum : list string :=
  ["signup"; "login"; "password_reset"; "email_verification"].

(** *** Validation of a document before it is saved *)

Definition email_valid (d : OTPDoc) : bool := Regex.test emailRegex (email d).

(** [minlength: 6] and [maxlength: 6] *)
Definition code_valid (d : OTPDoc) : bool :=
  bool_decide (String.length (code d) = 6%nat).

Definition purpose_valid (d : OTPDoc) : bool :=
  bool_decide (purpose d ∈ purpose_enum).

(** [max: 5] *)
Definition attempts_valid (d : OTPDoc) : bool := attempts d <=? 5.

(** The paths of [d] a validator rejects. *)
Definition invalid_paths (d : OTPDoc) : list string :=
  (if email_valid d then [] else ["email"]) ++
  (if code_valid d then [] else ["code"]) ++
  (if purpose_valid d then [] else ["purpose"]) ++
  (if attempts_valid d then [] else ["attempts"]).

(** *** Filters *)

(** The filters the statics build: equality on [email], [purpose] and
    [isUsed], [$gt] and [$lt] on [expiresAt], [$gte] on [createdAt].
    [None] leaves the path unconstrained. *)
Record Filter : Type := mkFilter {
  q_email : option string;
  q_purpose : option string;
  q_isUsed : option bool;
  q_expiresAt_gt : option Z;
  q_expiresAt_lt : option Z;
  q_createdAt_gte : option Z
}.

(** Casting a filter to the schema applies the setters of [email]. *)
Definition cast (f : Filter) : Filter :=
  mkFilter (email_setters <$> q_email f) (q_purpose f) (q_isUsed f)
           (q_expiresAt_gt f) (q_expiresAt_lt f) (q_createdAt_gte f).

Definition holds {A} (o : option A) (p : A → bool) : bool :=
  match o with None => true | Some v => p v end.

Definition matches (f : Filter) (d : OTPDoc) : bool :=
  holds (q_email f) (λ e, bool_decide (email d = e))
  && holds (q_purpose f) (λ p, bool_decide (purpose d = p))
  && holds (q_isUsed f) (λ b, bool_decide (isUsed d = b))
  && holds (q_expiresAt_gt f) (λ t, t <? expiresAt d)
  && holds (q_expiresAt_lt f) (λ t, expiresAt d <? t)
  && holds (q_createdAt_gte f) (λ t, t <=? createdAt d).

(** [Model.findOne(f)]: the first matching document and its position. *)
Definition findOne (f : Filter) (c : Collection) : option (nat * OTPDoc) :=
  list_find (λ d, matches (cast f) d) c.

(** [Model.deleteMany(f)]: what remains, and [deletedCount]. *)
Definition deleteMany (f : Filter) (c : Collection) : Collection * nat :=
  (filter (λ d, ¬ matches (cast f) d) c,
   length (filter (λ d, matches (cast f) d) c)).

(** [{ email, purpose }] *)
Definition by_key (e p : string) : Filter :=
  mkFilter (Some e) (Some p) None None None None.

(** [{ email, purpose, isUsed: false, expiresAt: { $gt: now } }] *)
Definition active_at (now : Z) (e p : string) : Filter :=
  mkFilter (Some e) (Some p) (Some false) (Some now) None None.

(** [{ email, purpose, createdAt: { $gte: since } }] *)
Definition created_since (since : Z) (e p : string) : Filter :=
  mkFilter (Some e) (Some p) None None None (Some since).

(** [{ email, purpose, isUsed: false }] *)
Definition unused (e p : string) : Filter :=
  mkFilter (Some e) (Some p) (Some false) None None None.

(** [{ expiresAt: { $lt: now } }] *)
Definition expired_before (now : Z) : Filter :=
  mkFilter None None None None (Some now) None.

(** *** What the statics return or throw *)

Inductive Exn : Type :=
| ValidationError (paths : list string)       (* rejected by [save] *)
| Error (message : string)                    (* [new Error(message)] *)
| ErrorFrom (prefix : string) (cause : Exn).  (* [new Error(prefix + cause.message)] *)

Inductive Outcome (A : Type) : Type :=
| Return (v : A)
| Throw (e : Exn).
Arguments Return {A} v.
Arguments Throw {A} e.

(** [{ otp, expiresAt, purpose }] of [createOTP] *)
Record Issued : Type := mkIssued {
  otp : string;
  issued_expiresAt : Z;
  issued_purpose : string
}.

(** [{ valid, message }] of [verifyOTP] *)
Record Verdict : Type := mkVerdict {
  valid : bool;
  message : string
}.

(** What [getOTPInfo] reveals of a document. *)
Record Info : Type := mkInfo {
  info_email : string;
  info_purpose : string;
  info_expiresAt : Z;
  info_attempts : Z;
  info_createdAt : Z
}.

Definition not_found : Verdict := mkVerdict false "Invalid or expired OTP".
Definition too_many : Verdict :=
  mkVerdict false "Too many attempts. Please request a new OTP.".
Definition verified : Verdict := mkVerdict true "OTP verified successfully".
Definition invalid_code : Verdict := mkVerdict false "Invalid OTP code".

Definition rate_limited : Exn :=
  ErrorFrom "Failed to resend OTP: "
    (Error "Please wait at least 1 minute before requesting a new OTP").

(** *** Keys and invariants *)

(** The pair that scopes a document. *)
Definition key (d : OTPDoc) : string * string := (email d, purpose d).

(** At most one document per (address, purpose). *)
Definition unique_keys (c : Collection) : Prop := NoDup (key <$> c).

(** [attempts] stays within the cap. *)
Definition attempts_capped (c : Collection) : Prop :=
  Forall (λ d, 0 ≤ attempts d ≤ 5) c.

(** The documents of [c] scoped by (e, p), as a filter sees them. *)
Definition keyed (e p : string) (c : Collection) : Collection :=
  filter (λ d, key d = (email_setters e, p)) c.

(** What [deleteMany({ email, purpose })] leaves. *)
Definition others (e p : string) (c : Collection) : Collection :=
  filter (λ d, key d ≠ (email_setters e, p)) c.

(** A document is active at [now]: unused and unexpired. *)
Definition active (now : Z) (d : OTPDoc) : Prop :=
  isUsed d = false ∧ now < expiresAt d.

#[local] Instance active_dec now d : Decision (active now d).
Proof. unfold active. apply _. Defined.

(** *** The generated code *)

(** [generateOTP]: [speakeasy.totp] with [digits: 6] on a fresh
    secret. The library pads the decimal form of the HOTP value with
    [digits] zeros on the left and keeps the last [digits] code
    units; [hotp] is that value. *)
Definition generateOTP (hotp : N) : string :=
  Js.substr_last 6 (Js.zeros 6 +:+ Js.toString10 hotp).

(** *** A stand-in for [bcrypt] and records to run the statics on *)

(** The first [n] code units of [s], padded with dots. *)
Fixpoint fit (n : nat) (s : string) : string :=
  match n with
  | O => EmptyString
  | S n' =>
      match s with
      | EmptyString => String "." (fit n' EmptyString)
      | String x s' => String x (fit n' s')
      end
  end.

(** A stand-in for [bcrypt] that has the two assumed properties. *)
Definition demo_hash (data : string) (rounds : Z) (salt : string) : string :=
  "$2b$12$" +:+ fit 53 data.

Definition demo_compare (data hash : string) : bool :=
  bool_decide (hash = "$2b$12$" +:+ fit 53 data).

(** The record [createOTP] stores at instant 1000 for [Ann@X.com] and
    [signup] when the generated code is [123456]. *)
Definition demo_doc : OTPDoc :=
  mkOTP "ann@x.com" (demo_hash "123456" 12 "salt") "signup" 601000 0 false 1000.

Definition demo_issued : Issued := mkIssued "123456" 601000 "signup".


(** The same record with [n] counted attempts. *)
Definition demo_tried (n : Z) : OTPDoc :=
  mkOTP "ann@x.com" (demo_hash "123456" 12 "salt") "signup" 601000 n false 1000.

(** A record of another pair. *)
Definition demo_other : OTPDoc :=
  mkOTP "bob@x.com" (demo_hash "222222" 12 "salt") "login" 601000 0 false 900.

Definition demo_rejected : Exn :=
  ErrorFrom "OTP verification failed: " (ValidationError ["code"]).

(** *** The model of [lib/models/OTP.ts]

    The second model of the repository keeps the generated code as it
    is, with no validator on its length, no attempt counter and no
    cooldown. Its statics are embedded with the same conventions. *)

Module NextOTP.

Record IOTP : Type := mkIOTP {
  email : string;
  otp : string;
  purpose : string;
  expiresAt : Z;
  isUsed : bool
}.

(** [lowercase: true] *)
Definition email_setters (v : string) : string := Js.toLowerCase v.

(** [required: true] on a string path rejects the empty string. *)
Definition required (v : string) : bool :=
  negb (bool_decide (String.length v = 0%nat)).

Definition invalid_paths (d : IOTP) : list string :=
  (if required (email d) then [] else ["email"]) ++
  (if required (otp d) then [] else ["otp"]) ++
  (if bool_decide (purpose d ∈ purpose_enum) then [] else ["purpose"]).

(** [{ email, purpose }] *)
Definition by_key (e p : string) (d : IOTP) : Prop :=
  email d = email_setters e ∧ purpose d = p.

(** [{ email, purpose, isUsed: false, expiresAt: { $gt: now } }] *)
Definition active_at (now : Z) (e p : string) (d : IOTP) : Prop :=
  by_key e p d ∧ isUsed d = false ∧ now < expiresAt d.

#[global] Instance by_key_dec e p d : Decision (by_key e p d).
Proof. unfold by_key. apply _. Defined.

#[global] Instance active_at_dec now e p d : Decision (active_at now e p d).
Proof. unfold active_at. apply _. Defined.

(** [Model.create(doc)] and [doc.save()]: validation, then the write. *)
Definition create (d : IOTP) (c : list IOTP) : Exn + list IOTP :=
  match invalid_paths d with
  | [] => inr (c ++ [d])
  | paths => inl (ValidationError paths)
  end.

Definition save_at (i : nat) (d : IOTP) (c : list IOTP) : Exn + list IOTP :=
  match invalid_paths d with
  | [] => inr (<[i := d]> c)
  | paths => inl (ValidationError paths)
  end.

(** [{ otp, expiresAt }] *)
Record Issued : Type := mkIssued {
  issued_otp : string;
  issued_expiresAt : Z
}.

Definition createOTP (now : Z) (e p : string) (hotp : N) (c : list IOTP)
  : list IOTP * Outcome Issued :=
  let c1 := filter (λ d, ¬ by_key e p d) c in
  let code := generateOTP hotp in
  let expires := now + 10 * 60 * 1000 in
  match create (mkIOTP (email_setters e) code p expires false) c1 with
  | inr c2 => (c2, Return (mkIssued code expires))
  | inl err => (c1, Throw err)
  end.

Definition not_found : Verdict := mkVerdict false "OTP not found or expired".

Definition verifyOTP (now : Z) (e code p : string) (c : list IOTP)
  : list IOTP * Outcome Verdict :=
  match list_find (active_at now e p) c with
  | None => (c, Return not_found)
  | Some (i, d) =>
      if bool_decide (otp d = code) then
        match save_at i (mkIOTP (email d) (otp d) (purpose d) (expiresAt d) true) c with
        | inr c1 => (c1, Return verified)
        | inl err => (c, Throw err)
        end
      else (c, Return invalid_code)
  end.

(** [resendOTP] repeats the body of [createOTP]: there is no cooldown. *)
Definition resendOTP (now : Z) (e p : string) (hotp : N) (c : list IOTP)
  : list IOTP * Outcome Issued :=
  createOTP now e p hotp c.

(** The document [createOTP] and [resendOTP] persist. *)
Definition issued_doc (now : Z) (e p : string) (hotp : N) : IOTP :=
  mkIOTP (email_setters e) (generateOTP hotp) p (now + 10 * 60 * 1000) false.

(** The collection after the submissions [subs], each an instant and a
    code, for one address and purpose. *)
Definition submit_all (e p : string) (subs : list (Z * string))
    (c : list IOTP) : list IOTP :=
  foldl (λ c sub, (verifyOTP sub.1 e sub.2 p c).1) c subs.

End NextOTP.

(** *** The mailers

    [sendOTPEmail] of [config/email.js] and of [lib/utils/email.ts] have
    one control flow: inside [try], [createTransporter()] calls
    [nodemailer.createTransporter], the message is built and
    [transporter.sendMail] awaited, then [true] is returned; [catch]
    returns [false]. Of the message the recipient and the code are
    kept; the subject and the markup, which no result reads, are left
    out. *)

Module Mailer.

(** What [sendMail] of a transporter does with a message to an address
    carrying a code: [true] when the promise resolves, [false] when it
    rejects. *)
Definition Transporter : Type := string → string → bool.

(** The module [nodemailer] as the mailers use it: its member
    [createTransporter], [None] when the module has no such member. *)
Record Nodemailer : Type := mkNodemailer {
  createTransporter : option Transporter
}.

(** Calling a member that is undefined throws a [TypeError], which the
    [catch] turns into [false] as it does a rejected [sendMail]. *)
Definition sendOTPEmail (nm : Nodemailer) (email otp purpose : string)
  : bool :=
  match createTransporter nm with
  | None => false
  | Some transporter => transporter email otp
  end.

(** The library exports [createTransport]; it has no member
    [createTransporter]. *)
Definition nodemailer : Nodemailer := mkNodemailer None.

End Mailer.

(** *** The handlers of [pages/api/auth/otp]

    The two Next.js handlers that call the statics of
    [lib/models/OTP.ts]. A request is its method and the fields of its
    body the handlers read, each a string or absent; a body with a
    field of another JSON type (a number, an object, which Mongoose
    reads as a query operator when it reaches a filter) is outside the
    embedding, and what is proved of the handlers is proved of the
    requests whose fields are strings. What the handlers
    reach outside the OTP collection is a parameter: whether
    [connectDB] succeeds, whether [User.findOne({ email })] finds a
    user, what [sendOTPEmail] returns, and whether the token and the
    [lastActive] update of a login go through. *)

Module NextApi.

Record Request : Type := mkRequest {
  method : string;
  body_email : option string;
  body_code : option string;
  body_purpose : option string
}.

Inductive Data : Type :=
| Sent (email purpose : string) (expiresAt : Z)
| Verified (email : string)
| Session (email : string).

Record Response : Type := mkResponse {
  status : Z;
  success : option bool;
  message : string;
  data : option Data
}.

Record Services : Type := mkServices {
  connectDB : bool;
  registered : string → bool;
  sendOTPEmail : string → string → string → bool;
  sign_in : string → bool
}.

(** [!v] on a field of the body *)
Definition missing (v : option string) : bool :=
  match v with
  | None => true
  | Some s => bool_decide (s = "")
  end.

Definition method_not_allowed : Response :=
  mkResponse 405 None "Method not allowed" None.

Definition refused (st : Z) (msg : string) : Response :=
  mkResponse st (Some false) msg None.

Definition internal_error : Response := refused 500 "Internal server error".

Definition answered (msg : string) (d : Data) : Response :=
  mkResponse 200 (Some true) msg (Some d).

(** [pages/api/auth/otp/send.ts] *)
Definition send (sv : Services) (now : Z) (hotp : N) (req : Request)
    (c : list NextOTP.IOTP) : list NextOTP.IOTP * Response :=
  if negb (bool_decide (method req = "POST")) then (c, method_not_allowed)
  else if negb (connectDB sv) then (c, internal_error)
  else
    let email := default "" (body_email req) in
    let purpose := default "signup" (body_purpose req) in
    if missing (body_email req) then (c, refused 400 "Email is required")
    else if (bool_decide (purpose = "login")
             || bool_decide (purpose = "password_reset"))
            && negb (registered sv email)
    then (c, refused 404 "User not found")
    else if bool_decide (purpose = "signup") && registered sv email
    then (c, refused 400 "Email already registered")
    else
      match NextOTP.createOTP now email purpose hotp c with
      | (c', Throw _) => (c', internal_error)
      | (c', Return otpData) =>
          if sendOTPEmail sv email (NextOTP.issued_otp otpData) purpose
          then (c', answered ("OTP sent to " +:+ email)
                      (Sent email purpose (NextOTP.issued_expiresAt otpData)))
          else (c', refused 500 "Failed to send OTP email")
      end.

(** The handler that verifies a submitted code ([src/unnamed/part_001]). *)
Definition verify (sv : Services) (now : Z) (req : Request)
    (c : list NextOTP.IOTP) : list NextOTP.IOTP * Response :=
  if negb (bool_decide (method req = "POST")) then (c, method_not_allowed)
  else if negb (connectDB sv) then (c, internal_error)
  else
    let email := default "" (body_email req) in
    let code := default "" (body_code req) in
    let purpose := default "signup" (body_purpose req) in
    if missing (body_email req) || missing (body_code req)
    then (c, refused 400 "Email and OTP code are required")
    else
      match NextOTP.verifyOTP now email code purpose c with
      | (c', Throw _) => (c', internal_error)
      | (c', Return verification) =>
          if negb (valid verification)
          then (c', refused 400 (OTP.message verification))
          else if bool_decide (purpose = "signup")
          then (c', answered
                      "Email verified successfully. You can now complete your registration."
                      (Verified email))
          else if bool_decide (purpose = "login")
          then
            if negb (registered sv email)
            then (c', refused 404 "User not found")
            else if sign_in sv email
            then (c', answered "Login successful" (Session email))
            else (c', internal_error)
          else if bool_decide (purpose = "password_reset")
          then (c', answered "OTP verified. You can now reset your password."
                      (Verified email))
          else (c', answered "OTP verified successfully" (Verified email))
      end.

(** Services to run the handlers on: the database is reached, the only
    account is [ann@x.com], and [sendOTPEmail] reports [delivers]. *)
Definition demo_services (delivers : bool) : Services :=
  mkServices true (λ e, bool_decide (e = "ann@x.com")) (λ _ _ _, delivers)
             (λ _, true).

(** The services as the repository has them: the mailer is
    [sendOTPEmail] of [lib/utils/email.ts] on the [nodemailer] module. *)
Definition repository (db : bool) (users : string → bool)
    (login : string → bool) : Services :=
  mkServices db users (Mailer.sendOTPEmail Mailer.nodemailer) login.

End NextApi.

(** ** The statics of the model *)

Section Statics.

(** [bcrypt.hash(data, rounds)] with the salt it draws, and
    [bcrypt.compare(data, hash)]. *)
Variable bcrypt_hash : string → Z → string → string.
Variable bcrypt_compare : string → string → bool.

(** A hash compares equal to the data it was computed from. *)
Hypothesis bcrypt_compare_hash :
  ∀ data rounds salt, bcrypt_compare data (bcrypt_hash data rounds salt) = true.

(** A hash is a string of 60 code units: the prefix, the cost, 22 of
    salt and 31 of digest. *)
Hypothesis bcrypt_hash_length :
  ∀ data rounds salt, String.length (bcrypt_hash data rounds salt) = 60%nat.

(** [parseInt(process.env.OTP_EXPIRE_MINUTES)]; [None] is [NaN]. *)
Variable OTP_EXPIRE_MINUTES : option Z.

(** [parseInt(process.env.OTP_EXPIRE_MINUTES) || 10]: [NaN] and [0]
    are falsy. *)
Definition expire_minutes : Z :=
  match OTP_EXPIRE_MINUTES with
  | Some n => if n =? 0 then 10 else n
  | None => 10
  end.

(** The [pre('save')] hook: hash [code] when it was modified. *)
Definition pre_save (salt : string) (code_modified : bool) (d : OTPDoc) : OTPDoc :=
  if code_modified then set_code (bcrypt_hash (code d) 12 salt) d else d.

(** [save] of a new document: validation, then the hook, then the
    insertion. Returns the collection and the document as saved.
    Validation is the first [pre('save')] hook, so it sees the code
    before it is hashed. *)
Definition save_new (salt : string) (d : OTPDoc) (c : Collection)
  : Exn + Collection * OTPDoc :=
  match invalid_paths d with
  | [] => let d' := pre_save salt true d in inr (c ++ [d'], d')
  | paths => inl (ValidationError paths)
  end.

(** [save] of the document loaded from position [i]: validation, then
    the hook, which returns at once since [code] is not modified
    ([pre_save _ false d = d]), then the update in place. Validation
    checks every path the loaded document holds, not only the ones the
    caller assigned: that narrower check is what the option
    [validateModifiedOnly] asks for, and no call sets it. *)
Definition save_at (i : nat) (d : OTPDoc) (c : Collection)
  : Exn + Collection :=
  match invalid_paths d with
  | [] => inr (<[i := d]> c)
  | paths => inl (ValidationError paths)
  end.

(** [new this({ email, code, purpose, expiresAt })]: the setters of
    [email] and the defaults of [attempts], [isUsed] and [createdAt]. *)
Definition new_doc (now : Z) (e c p : string) (expires : Z) : OTPDoc :=
  mkOTP (email_setters e) c p expires 0 false now.

Definition createOTP (now : Z) (e p : string) (hotp : N) (salt : string)
    (c : Collection) : Collection * Outcome Issued :=
  let c1 := (deleteMany (by_key e p) c).1 in
  let otpCode := generateOTP hotp in
  let d := new_doc now e otpCode p (now + expire_minutes * 60 * 1000) in
  match save_new salt d c1 with
  | inr (c2, d') =>
      (c2, Return (mkIssued otpCode (expiresAt d') (purpose d')))
  | inl err => (c1, Throw (ErrorFrom "Failed to create OTP: " err))
  end.

Definition verification_failed (err : Exn) : Exn :=
  ErrorFrom "OTP verification failed: " err.

Definition verifyOTP (now : Z) (e submitted p : string) (c : Collection)
  : Collection * Outcome Verdict :=
  match findOne (active_at now e p) c with
  | None => (c, Return not_found)
  | Some (i, d) =>
      if 5 <=? attempts d then (c, Return too_many)
      else
        let d1 := set_attempts (attempts d + 1) d in
        match save_at i d1 c with
        | inl err => (c, Throw (verification_failed err))
        | inr c1 =>
            if bcrypt_compare submitted (code d1) then
              let d2 := set_isUsed true d1 in
              match save_at i d2 c1 with
              | inl err => (c1, Throw (verification_failed err))
              | inr c2 => (c2, Return verified)
              end
            else (c1, Return invalid_code)
        end
  end.

Definition resendOTP (now : Z) (e p : string) (hotp : N) (salt : string)
    (c : Collection) : Collection * Outcome Issued :=
  match findOne (created_since (now - 60 * 1000) e p) c with
  | Some _ => (c, Throw rate_limited)
  | None =>
      match createOTP now e p hotp salt c with
      | (c', Return r) => (c', Return r)
      | (c', Throw err) => (c', Throw (ErrorFrom "Failed to resend OTP: " err))
      end
  end.

Definition getOTPInfo (e p : string) (c : Collection) : option Info :=
  match findOne (unused e p) c with
  | None => None
  | Some (_, d) =>
      Some (mkInfo (email d) (purpose d) (expiresAt d) (attempts d) (createdAt d))
  end.

Definition cleanupExpiredOTPs (now : Z) (c : Collection) : Collection * nat :=
  deleteMany (expired_before now) c.

(** The TTL index [{ expiresAt: 1 }, { expireAfterSeconds: 0 }]: the
    server removes the documents whose [expiresAt] is reached. *)
Definition ttl_expire (now : Z) (c : Collection) : Collection :=
  filter (λ d, now < expiresAt d) c.

(** *** Histories of calls *)

Inductive Call : Type :=
| CallCreate (e p : string) (hotp : N) (salt : string)
| CallVerify (e submitted p : string)
| CallResend (e p : string) (hotp : N) (salt : string)
| CallCleanup
| TtlExpire.

(** The collection after [call] at instant [now]. *)
Definition step (c : Collection) (timed : Z * Call) : Collection :=
  let (now, call) := timed in
  match call with
  | CallCreate e p hotp salt => (createOTP now e p hotp salt c).1
  | CallVerify e submitted p => (verifyOTP now e submitted p c).1
  | CallResend e p hotp salt => (resendOTP now e p hotp salt c).1
  | CallCleanup => (cleanupExpiredOTPs now c).1
  | TtlExpire => ttl_expire now c
  end.

Definition run (calls : list (Z * Call)) (c : Collection) : Collection :=
  foldl step c calls.

(** The collections a history of calls builds from the empty one. *)
Definition reachable (c : Collection) : Prop :=
  ∃ calls, run calls [] = c.

(** *** Issuance and the invariants of the collection *)

(** The inputs [createOTP] accepts: the address, after the setters,
    matches the validator's regular expression, and the purpose is one
    of the enumeration. *)
Definition acceptable (e p : string) : Prop :=
  Regex.test emailRegex (email_setters e) = true ∧ p ∈ purpose_enum.

#[local] Instance acceptable_dec e p : Decision (acceptable e p).
Proof. unfold acceptable. apply _. Defined.

(** The document [createOTP] persists. *)
Definition issued_doc (now : Z) (e p : string) (hotp : N) (salt : string)
  : OTPDoc :=
  mkOTP (email_setters e) (bcrypt_hash (generateOTP hotp) 12 salt) p
        (now + expire_minutes * 60 * 1000) 0 false now.

(** Every stored [code] is a [bcrypt] hash. *)
Definition stored_hashes (c : Collection) : Prop :=
  Forall (λ d, ∃ plain salt, code d = bcrypt_hash plain 12 salt) c.

(** The invariant of the collection. *)
Definition consistent (c : Collection) : Prop :=
  unique_keys c ∧ attempts_capped c ∧ stored_hashes c.

(** Submitting the codes of [subs] in turn for (e, p), each at its
    instant. *)
Definition submit_all (e p : string) (subs : list (Z * string))
    (c : Collection) : Collection :=
  foldl (λ c (sub : Z * string), (verifyOTP sub.1 e sub.2 p c).1) c subs.

(** Every stored address passes the e-mail validator and every stored
    purpose is one of the enumeration. *)
Definition well_keyed (c : Collection) : Prop :=
  Forall (λ d, Regex.test emailRegex (email d) = true ∧
               purpose d ∈ purpose_enum) c.

(** No stored document has been marked used or has a counted attempt. *)
Definition untouched (c : Collection) : Prop :=
  Forall (λ d, isUsed d = false ∧ attempts d = 0) c.

(** What [getOTPInfo] reports of a document. *)
Definition info_of (d : OTPDoc) : Info :=
  mkInfo (email d) (purpose d) (expiresAt d) (attempts d) (createdAt d).

(** *** The controllers of the OTP routes

    [sendOTP], [verifyOTP] and [resendOTP] of the authentication
    controller, which call the statics above. A request is the body
    fields the controllers read, [email] and [code] being strings, and
    whether [validationResult] holds an error; a body whose [email]
    or [code] is of another JSON type is outside the embedding. Of a
    JSON answer the status, [success] and [message] are kept.
    [User.findOne], the delivery of the mail and the token and
    [lastLogin] update of a login are the fields of [Services];
    [repository] fills in the mailer of [config/email.js]. *)

Record Services : Type := mkServices {
  registered : string → bool;
  sendOTPEmail : string → string → string → bool;
  sign_in : string → option Exn
}.

Record Body : Type := mkBody {
  body_email : string;
  body_code : string;
  body_purpose : option string
}.

Inductive Reply : Type :=
| Json (status : Z) (success : bool) (msg : string)
| NextError (err : Exn)        (* [next(error)] *)
| NoReply.                     (* the controller ends without answering *)

Definition validation_failed : Reply := Json 400 false "Validation failed".

Definition controller_sendOTP (sv : Services) (invalid : bool) (now : Z) (hotp : N)
    (salt : string) (b : Body) (c : Collection) : Collection * Reply :=
  if invalid then (c, validation_failed)
  else
    let e := body_email b in
    let p := default "signup" (body_purpose b) in
    if (bool_decide (p = "login") || bool_decide (p = "password_reset"))
       && negb (registered sv e)
    then (c, Json 404 false "User not found")
    else if bool_decide (p = "signup") && registered sv e
    then (c, Json 400 false "Email already registered")
    else
      match createOTP now e p hotp salt c with
      | (c', Throw err) => (c', NextError err)
      | (c', Return otpData) =>
          if sendOTPEmail sv e (otp otpData) p
          then (c', Json 200 true ("OTP sent to " +:+ e))
          else (c', Json 500 false "Failed to send OTP email")
      end.

Definition controller_verifyOTP (sv : Services) (invalid : bool) (now : Z) (b : Body)
    (c : Collection) : Collection * Reply :=
  if invalid then (c, validation_failed)
  else
    let e := body_email b in
    let p := default "signup" (body_purpose b) in
    match verifyOTP now e (body_code b) p c with
    | (c', Throw err) => (c', NextError err)
    | (c', Return verification) =>
        if negb (valid verification)
        then (c', Json 400 false (message verification))
        else if bool_decide (p = "signup")
        then (c', Json 200 true
                    "Email verified successfully. You can now complete your registration.")
        else if bool_decide (p = "login")
        then
          if negb (registered sv e) then (c', Json 404 false "User not found")
          else
            match sign_in sv e with
            | Some err => (c', NextError err)
            | None => (c', Json 200 true "Login successful")
            end
        else if bool_decide (p = "password_reset")
        then (c', Json 200 true "OTP verified. You can now reset your password.")
        else (c', NoReply)
    end.

Definition controller_resendOTP (sv : Services) (invalid : bool) (now : Z) (hotp : N)
    (salt : string) (b : Body) (c : Collection) : Collection * Reply :=
  if invalid then (c, validation_failed)
  else
    let e := body_email b in
    let p := default "signup" (body_purpose b) in
    match resendOTP now e p hotp salt c with
    | (c', Throw err) => (c', NextError err)
    | (c', Return otpData) =>
        if sendOTPEmail sv e (otp otpData) p
        then (c', Json 200 true ("OTP resent to " +:+ e))
        else (c', Json 500 false "Failed to send OTP email")
    end.

(** Services to run the controllers on: no address has an account and
    every mail is delivered. *)
Definition demo_open : Services :=
  mkServices (λ _, false) (λ _ _ _, true) (λ _, None).

(** The services as the repository has them: the mailer is
    [sendOTPEmail] of [config/email.js] on the [nodemailer] module. *)
Definition repository (users : string → bool) (login : string → option Exn)
  : Services :=
  mkServices users (Mailer.sendOTPEmail Mailer.nodemailer) login.

(** The two replies of the controller of the send route that follow a
    returned [createOTP]: the mail was sent, or it could not be sent. *)
Definition issued_reply (e : string) (r : Reply) : Prop :=
  r = Json 200 true ("OTP sent to " +:+ e) ∨
  r = Json 500 false "Failed to send OTP email".

(** ** Filters, read as propositions *)

Lemma Zltb_True a b : (a <? b) ↔ a < b.
Proof. rewrite Is_true_true. apply Z.ltb_lt. Qed.

Lemma Zleb_True a b : (a <=? b) ↔ a ≤ b.
Proof. rewrite Is_true_true. apply Z.leb_le. Qed.

Lemma key_eq d a b : key d = (a, b) ↔ email d = a ∧ purpose d = b.
Proof.
  unfold key. split; [intros [= -> ->] | intros [-> ->]]; auto.
Qed.

Ltac filter_prop :=
  rewrite ?key_eq; unfold matches, active; simpl;
  rewrite ?andb_true_r, ?andb_True, ?bool_decide_spec, ?Zltb_True, ?Zleb_True;
  intuition (auto; congruence).

Lemma matches_by_key e p d :
  matches (cast (by_key e p)) d ↔ key d = (email_setters e, p).
Proof. filter_prop. Qed.

Lemma matches_active_at now e p d :
  matches (cast (active_at now e p)) d ↔
  key d = (email_setters e, p) ∧ active now d.
Proof. filter_prop. Qed.

Lemma matches_created_since since e p d :
  matches (cast (created_since since e p)) d ↔
  key d = (email_setters e, p) ∧ since ≤ createdAt d.
Proof. filter_prop. Qed.

Lemma matches_expired_before now d :
  matches (cast (expired_before now)) d ↔ expiresAt d < now.
Proof. filter_prop. Qed.

(** ** The generated code *)

Lemma list_ascii_of_append (a b : string) :
  String.list_ascii_of_string (a +:+ b) =
  String.list_ascii_of_string a ++ String.list_ascii_of_string b.
Proof. induction a as [|x a IH]; simpl; [done | by rewrite IH]. Qed.

Lemma length_string_of_list (l : list ascii) :
  String.length (String.string_of_list_ascii l) = length l.
Proof. induction l as [|x l IH]; simpl; [done | by rewrite IH]. Qed.




Lemma generateOTP_length (hotp : N) : String.length (generateOTP hotp) = 6%nat.
Proof.
  unfold generateOTP, Js.substr_last.
  rewrite length_string_of_list, length_drop, list_ascii_of_append, length_app.
  unfold Js.zeros. rewrite String.list_ascii_of_string_of_list_ascii.
  rewrite length_replicate. lia.
Qed.


(** ** Queries on a collection *)

Lemma deleteMany_by_key e p c : (deleteMany (by_key e p) c).1 = others e p c.
Proof.
  unfold deleteMany, others; simpl. apply list_filter_iff.
  intros d. by rewrite matches_by_key.
Qed.

Lemma keyed_others e p c : keyed e p (others e p c) = [].
Proof.
  unfold keyed, others.
  destruct (filter _ (filter _ c)) as [|x l] eqn:E; [done|].
  assert (x ∈ x :: l) as Hx by left. rewrite <- E in Hx.
  by apply list_elem_of_filter in Hx as [HP [HQ _]%list_elem_of_filter].
Qed.


Lemma findOne_Some f c i d :
  findOne f c = Some (i, d) →
  c !! i = Some d ∧ matches (cast f) d ∧
  ∀ j y, c !! j = Some y → (j < i)%nat → ¬ matches (cast f) y.
Proof. unfold findOne. by rewrite list_find_Some. Qed.

Lemma findOne_None f c :
  findOne f c = None ↔ ∀ d, d ∈ c → ¬ matches (cast f) d.
Proof. unfold findOne. by rewrite list_find_None, Forall_forall. Qed.

(** ** One document per key *)

Lemma unique_keys_lookup c i j d1 d2 :
  unique_keys c → c !! i = Some d1 → c !! j = Some d2 →
  key d1 = key d2 → i = j.
Proof.
  intros Hu Hi Hj Hk.
  apply (NoDup_lookup (key <$> c) i j (key d1) Hu);
    rewrite list_lookup_fmap; [by rewrite Hi | by rewrite Hj, Hk].
Qed.

Lemma unique_keys_filter (P : OTPDoc → Prop) `{∀ d, Decision (P d)} c :
  unique_keys c → unique_keys (filter P c).
Proof.
  unfold unique_keys. intros Hu. eapply sublist_NoDup; [exact Hu|].
  apply fmap_sublist, sublist_filter.
Qed.

Lemma unique_keys_insert c i d d' :
  c !! i = Some d → key d' = key d →
  unique_keys c → unique_keys (<[i := d']> c).
Proof.
  unfold unique_keys. intros Hi Hk Hu.
  rewrite list_fmap_insert, Hk, list_insert_id; [done|].
  by rewrite list_lookup_fmap, Hi.
Qed.

Lemma unique_keys_snoc c d :
  unique_keys c → (∀ x, x ∈ c → key x ≠ key d) → unique_keys (c ++ [d]).
Proof.
  unfold unique_keys. intros Hu Hfresh. rewrite fmap_app. apply NoDup_app.
  split; [done|]. split; [|apply NoDup_singleton].
  intros k Hk Hd. apply list_elem_of_fmap in Hk as (x & Hkx & Hx).
  simpl in Hd. apply list_elem_of_singleton in Hd.
  apply (Hfresh x Hx). congruence.
Qed.

(** Under the invariant, the document scoped by (e, p) is the one a
    query for the pair finds, when it is active, and the query finds
    nothing when it is not. *)
Lemma findOne_active c now e p i d :
  unique_keys c → c !! i = Some d →
  key d = (email_setters e, p) → active now d →
  findOne (active_at now e p) c = Some (i, d).
Proof.
  intros Hu Hi Hk Ha. unfold findOne. apply list_find_Some.
  split; [done|]. split; [by apply matches_active_at|].
  intros j y Hj Hlt [Hky _]%matches_active_at.
  assert (j = i) by (eapply unique_keys_lookup; eauto; congruence). lia.
Qed.

Lemma findOne_inactive c now e p i d :
  unique_keys c → c !! i = Some d →
  key d = (email_setters e, p) → ¬ active now d →
  findOne (active_at now e p) c = None.
Proof.
  intros Hu Hi Hk Hna. apply findOne_None.
  intros y [j Hj]%list_elem_of_lookup [Hky Hya]%matches_active_at.
  assert (j = i) by (eapply unique_keys_lookup; eauto; congruence).
  subst j. rewrite Hi in Hj. by injection Hj as ->.
Qed.

(** ** Issuance *)

Lemma invalid_paths_new now e p hotp expires :
  invalid_paths (new_doc now e (generateOTP hotp) p expires) = [] ↔
  acceptable e p.
Proof.
  unfold invalid_paths, acceptable, email_valid, code_valid,
    purpose_valid, attempts_valid, new_doc; simpl.
  rewrite (bool_decide_true _ (generateOTP_length hotp)).
  destruct (Regex.test emailRegex (email_setters e)); simpl;
    [|split; [done | by intros [? _]]].
  case_bool_decide; simpl; [done|]. split; [done | by intros [_ ?]].
Qed.

Lemma createOTP_accepts now e p hotp salt c :
  acceptable e p →
  createOTP now e p hotp salt c =
    (others e p c ++ [issued_doc now e p hotp salt],
     Return (mkIssued (generateOTP hotp)
                      (now + expire_minutes * 60 * 1000) p)).
Proof.
  intros Hok. unfold createOTP, save_new.
  rewrite deleteMany_by_key.
  by rewrite (proj2 (invalid_paths_new _ _ _ _ _) Hok).
Qed.

Lemma createOTP_rejects now e p hotp salt c :
  ¬ acceptable e p →
  ∃ paths,
    createOTP now e p hotp salt c =
      (others e p c,
       Throw (ErrorFrom "Failed to create OTP: " (ValidationError paths))).
Proof.
  intros Hno. unfold createOTP, save_new. rewrite deleteMany_by_key.
  destruct (invalid_paths _) as [|path paths] eqn:E.
  - by apply invalid_paths_new in E.
  - by exists (path :: paths).
Qed.

(** ** Validation of stored documents *)

Lemma invalid_paths_set_isUsed v d :
  invalid_paths (set_isUsed v d) = invalid_paths d.
Proof. reflexivity. Qed.

(** A stored code that is not 6 code units long is rejected. *)
Lemma code_rejected d :
  String.length (code d) ≠ 6%nat → "code" ∈ invalid_paths d.
Proof.
  intros Hlen. unfold invalid_paths, code_valid.
  rewrite bool_decide_false by done.
  apply elem_of_app; right. apply list_elem_of_here.
Qed.

(** What the validators say of the issued document, whatever its
    [attempts] within the cap: its [code], a hash, is too long. *)
Lemma invalid_paths_issued now e p hotp salt v :
  acceptable e p → v ≤ 5 →
  invalid_paths (set_attempts v (issued_doc now e p hotp salt)) = ["code"].
Proof.
  intros [He Hp] Hv.
  unfold invalid_paths, email_valid, code_valid, purpose_valid,
    attempts_valid; simpl.
  rewrite He, bool_decide_false, (bool_decide_true _ Hp);
    [|rewrite bcrypt_hash_length; lia].
  by rewrite (proj2 (Z.leb_le v 5) Hv).
Qed.

(** ** Verification, case by case *)

Lemma verifyOTP_not_found now e submitted p c :
  findOne (active_at now e p) c = None →
  verifyOTP now e submitted p c = (c, Return not_found).
Proof. unfold verifyOTP. by intros ->. Qed.

Lemma verifyOTP_too_many now e submitted p c i d :
  findOne (active_at now e p) c = Some (i, d) → 5 ≤ attempts d →
  verifyOTP now e submitted p c = (c, Return too_many).
Proof.
  unfold verifyOTP. intros -> Hcap.
  by rewrite (proj2 (Z.leb_le 5 (attempts d)) Hcap).
Qed.

(** The first [save] is rejected: nothing is written and the error is
    rethrown. *)
Lemma verifyOTP_rejected now e submitted p c i d path paths :
  findOne (active_at now e p) c = Some (i, d) → attempts d < 5 →
  invalid_paths (set_attempts (attempts d + 1) d) = path :: paths →
  verifyOTP now e submitted p c =
    (c, Throw (verification_failed (ValidationError (path :: paths)))).
Proof.
  unfold verifyOTP, save_at. intros -> Hlt Hbad.
  rewrite (proj2 (Z.leb_gt 5 (attempts d)) Hlt). simpl. by rewrite Hbad.
Qed.

(** The [save] is accepted and the code does not compare equal. *)
Lemma verifyOTP_mismatch now e submitted p c i d :
  findOne (active_at now e p) c = Some (i, d) → attempts d < 5 →
  invalid_paths (set_attempts (attempts d + 1) d) = [] →
  bcrypt_compare submitted (code d) = false →
  verifyOTP now e submitted p c =
    (<[i := set_attempts (attempts d + 1) d]> c, Return invalid_code).
Proof.
  unfold verifyOTP, save_at. intros -> Hlt Hok Hcmp.
  rewrite (proj2 (Z.leb_gt 5 (attempts d)) Hlt). simpl.
  by rewrite Hok, Hcmp.
Qed.

(** Both [save]s are accepted and the code compares equal. *)
Lemma verifyOTP_match now e submitted p c i d :
  findOne (active_at now e p) c = Some (i, d) → attempts d < 5 →
  invalid_paths (set_attempts (attempts d + 1) d) = [] →
  bcrypt_compare submitted (code d) = true →
  verifyOTP now e submitted p c =
    (<[i := set_isUsed true (set_attempts (attempts d + 1) d)]> c,
     Return verified).
Proof.
  unfold verifyOTP, save_at. intros -> Hlt Hok Hcmp.
  rewrite (proj2 (Z.leb_gt 5 (attempts d)) Hlt). simpl.
  rewrite Hok, Hcmp, invalid_paths_set_isUsed. simpl. rewrite Hok.
  by rewrite list_insert_insert_eq.
Qed.

(** What [verifyOTP] can do to the collection: nothing, or count an
    attempt on one document under the cap and possibly mark it used. *)
Lemma verifyOTP_collection now e submitted p c :
  (verifyOTP now e submitted p c).1 = c ∨
  ∃ i d u,
    c !! i = Some d ∧ attempts d < 5 ∧ (u = isUsed d ∨ u = true) ∧
    (verifyOTP now e submitted p c).1 =
      <[i := set_isUsed u (set_attempts (attempts d + 1) d)]> c.
Proof.
  destruct (findOne (active_at now e p) c) as [[i d]|] eqn:Hfind;
    [|left; by rewrite verifyOTP_not_found].
  destruct (decide (attempts d < 5)) as [Hlt|Hge];
    [|left; rewrite (verifyOTP_too_many _ _ _ _ _ i d); [done..|lia]].
  destruct (invalid_paths (set_attempts (attempts d + 1) d))
    as [|path paths] eqn:Hpaths;
    [|left; by erewrite verifyOTP_rejected].
  pose proof Hfind as (Hi & _)%findOne_Some.
  right. exists i, d.
  destruct (bcrypt_compare submitted (code d)) eqn:Hcmp.
  - exists true. erewrite verifyOTP_match by done. auto.
  - exists (isUsed d). erewrite verifyOTP_mismatch by done.
    split; [done|]. split; [done|]. split; [by left|]. by destruct d.
Qed.

(** ** The invariants along a history *)

(** [verifyOTP] never changes the key of a document, nor the number
    of documents. *)
Lemma verifyOTP_keys now e submitted p c :
  key <$> (verifyOTP now e submitted p c).1 = key <$> c.
Proof.
  destruct (verifyOTP_collection now e submitted p c)
    as [-> | (i & d & u & Hi & _ & _ & ->)]; [done|].
  rewrite list_fmap_insert. apply list_insert_id.
  by rewrite list_lookup_fmap, Hi.
Qed.

Lemma verifyOTP_unique now e submitted p c :
  unique_keys c → unique_keys (verifyOTP now e submitted p c).1.
Proof. unfold unique_keys. by rewrite verifyOTP_keys. Qed.

Lemma verifyOTP_capped now e submitted p c :
  attempts_capped c → attempts_capped (verifyOTP now e submitted p c).1.
Proof.
  unfold attempts_capped. intros Hc.
  destruct (verifyOTP_collection now e submitted p c)
    as [-> | (i & d & u & Hi & Hlt & _ & ->)]; [done|].
  pose proof (proj1 (Forall_lookup _ _) Hc i d Hi) as Hd. simpl in Hd.
  apply Forall_insert; [done|]. simpl. lia.
Qed.

Lemma verifyOTP_hashes now e submitted p c :
  stored_hashes c → stored_hashes (verifyOTP now e submitted p c).1.
Proof.
  unfold stored_hashes. intros Hc.
  destruct (verifyOTP_collection now e submitted p c)
    as [-> | (i & d & u & Hi & _ & _ & ->)]; [done|].
  apply Forall_insert; [done|].
  exact (proj1 (Forall_lookup _ _) Hc i d Hi).
Qed.

Lemma Forall_filter_docs (Q P : OTPDoc → Prop) `{∀ d, Decision (P d)} c :
  Forall Q c → Forall Q (filter P c).
Proof.
  rewrite !Forall_forall. intros Hc d [_ Hd]%list_elem_of_filter. by apply Hc.
Qed.

Lemma others_fresh e p c x :
  x ∈ others e p c → key x ≠ (email_setters e, p).
Proof. unfold others. by intros [? _]%list_elem_of_filter. Qed.

Lemma createOTP_unique now e p hotp salt c :
  unique_keys c → unique_keys (createOTP now e p hotp salt c).1.
Proof.
  intros Hu. destruct (decide (acceptable e p)) as [Hok|Hno].
  - rewrite createOTP_accepts by done. simpl.
    apply unique_keys_snoc; [by apply unique_keys_filter|].
    intros x Hx. by apply others_fresh in Hx.
  - destruct (createOTP_rejects now e p hotp salt c Hno) as [paths ->].
    by apply unique_keys_filter.
Qed.

(** [createOTP] keeps a property of the stored documents that the
    issued one has. *)
Lemma createOTP_Forall (Q : OTPDoc → Prop) now e p hotp salt c :
  Q (issued_doc now e p hotp salt) →
  Forall Q c → Forall Q (createOTP now e p hotp salt c).1.
Proof.
  intros Hnew Hc. destruct (decide (acceptable e p)) as [Hok|Hno].
  - rewrite createOTP_accepts by done. simpl.
    apply Forall_app. split; [by apply Forall_filter_docs|].
    by apply Forall_singleton.
  - destruct (createOTP_rejects now e p hotp salt c Hno) as [paths ->].
    by apply Forall_filter_docs.
Qed.

Lemma resendOTP_collection now e p hotp salt c :
  (resendOTP now e p hotp salt c).1 = c ∨
  (resendOTP now e p hotp salt c).1 = (createOTP now e p hotp salt c).1.
Proof.
  unfold resendOTP. destruct (findOne _ c); [by left | right].
  by destruct (createOTP now e p hotp salt c) as [c' [r|err]].
Qed.

Lemma createOTP_consistent now e p hotp salt c :
  consistent c → consistent (createOTP now e p hotp salt c).1.
Proof.
  intros (Hu & Hc & Hh). split; [by apply createOTP_unique|].
  split; apply createOTP_Forall; try done.
  by exists (generateOTP hotp), salt.
Qed.

Lemma filter_consistent (P : OTPDoc → Prop) `{∀ d, Decision (P d)} c :
  consistent c → consistent (filter P c).
Proof.
  intros (Hu & Hc & Hh). split; [by apply unique_keys_filter|].
  split; by apply Forall_filter_docs.
Qed.

Lemma step_consistent c timed : consistent c → consistent (step c timed).
Proof.
  destruct timed as [now call]. intros Hc.
  destruct call as [e p hotp salt|e submitted p|e p hotp salt| |]; simpl.
  - by apply createOTP_consistent.
  - destruct Hc as (Hu & Hc & Hh).
    split; [by apply verifyOTP_unique|].
    split; [by apply verifyOTP_capped | by apply verifyOTP_hashes].
  - destruct (resendOTP_collection now e p hotp salt c) as [-> | ->];
      [done | by apply createOTP_consistent].
  - by apply filter_consistent.
  - by apply filter_consistent.
Qed.

Lemma run_consistent calls c : consistent c → consistent (run calls c).
Proof.
  revert c. induction calls as [|timed calls IH]; intros c Hc; [done|].
  simpl. by apply IH, step_consistent.
Qed.

Lemma reachable_consistent c : reachable c → consistent c.
Proof.
  intros [calls <-]. apply run_consistent.
  split; [apply NoDup_nil_2 | split; apply Forall_nil_2].
Qed.

(** ** The collection after an issuance *)

Lemma createOTP_returns now e p hotp salt c c' r :
  createOTP now e p hotp salt c = (c', Return r) →
  acceptable e p ∧
  c' = others e p c ++ [issued_doc now e p hotp salt] ∧
  r = mkIssued (generateOTP hotp) (now + expire_minutes * 60 * 1000) p.
Proof.
  destruct (decide (acceptable e p)) as [Hok|Hno].
  - rewrite createOTP_accepts by done. by intros [= <- <-].
  - destruct (createOTP_rejects now e p hotp salt c Hno) as [paths ->].
    by intros [= _].
Qed.

Lemma keyed_issued now e p hotp salt c :
  keyed e p (others e p c ++ [issued_doc now e p hotp salt]) =
  [issued_doc now e p hotp salt].
Proof.
  unfold keyed at 1. rewrite filter_app. fold (keyed e p (others e p c)).
  rewrite keyed_others. simpl. by rewrite filter_singleton_True.
Qed.


(** The issued document is the one any query for its pair finds while
    it has not expired. *)
Lemma findOne_issued t now e e' p hotp salt c :
  email_setters e' = email_setters e →
  t < now + expire_minutes * 60 * 1000 →
  findOne (active_at t e' p) (others e p c ++ [issued_doc now e p hotp salt])
  = Some (length (others e p c), issued_doc now e p hotp salt).
Proof.
  intros He Hlive. unfold findOne. apply list_find_Some. split.
  { by rewrite lookup_app_r, Nat.sub_diag. }
  split.
  { apply matches_active_at. by rewrite He. }
  intros j y Hj Hlt [Hky _]%matches_active_at.
  rewrite lookup_app_l in Hj by done.
  apply list_elem_of_lookup_2, others_fresh in Hj. congruence.
Qed.



(** ** The model of [lib/models/OTP.ts]: issuance and verification *)

Lemma toLowerCase_length s :
  String.length (Js.toLowerCase s) = String.length s.
Proof. induction s as [|a s IH]; simpl; [done | by rewrite IH]. Qed.

Lemma next_required_email e :
  e ≠ "" → NextOTP.required (NextOTP.email_setters e) = true.
Proof.
  intros He. unfold NextOTP.required, NextOTP.email_setters.
  rewrite toLowerCase_length, bool_decide_false; [done|].
  by destruct e.
Qed.

Lemma next_required_code hotp : NextOTP.required (generateOTP hotp) = true.
Proof.
  unfold NextOTP.required.
  by rewrite bool_decide_false; [|rewrite generateOTP_length].
Qed.

Lemma next_issued_valid now e p hotp used :
  e ≠ "" → p ∈ purpose_enum →
  NextOTP.invalid_paths
    (NextOTP.mkIOTP (NextOTP.email_setters e) (generateOTP hotp) p now used)
  = [].
Proof.
  intros He Hp. unfold NextOTP.invalid_paths; simpl.
  by rewrite next_required_email, next_required_code, (bool_decide_true _ Hp).
Qed.

Lemma next_createOTP_accepts now e p hotp c :
  e ≠ "" → p ∈ purpose_enum →
  NextOTP.createOTP now e p hotp c =
    (filter (λ d, ¬ NextOTP.by_key e p d) c ++ [NextOTP.issued_doc now e p hotp],
     Return (NextOTP.mkIssued (generateOTP hotp) (now + 10 * 60 * 1000))).
Proof.
  intros He Hp. unfold NextOTP.createOTP, NextOTP.create.
  by rewrite next_issued_valid.
Qed.

(** The query of [verifyOTP] on the collection [createOTP] leaves. *)
Lemma next_find_issued now t e e' p hotp c :
  NextOTP.email_setters e' = NextOTP.email_setters e →
  t < now + 10 * 60 * 1000 →
  list_find (NextOTP.active_at t e' p)
    (filter (λ d, ¬ NextOTP.by_key e p d) c ++ [NextOTP.issued_doc now e p hotp])
  = Some (length (filter (λ d, ¬ NextOTP.by_key e p d) c),
          NextOTP.issued_doc now e p hotp).
Proof.
  intros He Hlive. apply list_find_Some.
  split; [by rewrite lookup_app_r, Nat.sub_diag|].
  split; [by repeat split|].
  intros j y Hj Hlt [[Hmail Hpur] _].
  rewrite lookup_app_l in Hj by done.
  apply list_elem_of_lookup_2, list_elem_of_filter in Hj as [Hn _].
  apply Hn. split; congruence.
Qed.

(** No document of the pair is left to find once its only one is used
    or has expired. *)
Lemma next_find_none t e p d c :
  NextOTP.isUsed d = true ∨ NextOTP.expiresAt d ≤ t →
  list_find (NextOTP.active_at t e p)
    (filter (λ d, ¬ NextOTP.by_key e p d) c ++ [d]) = None.
Proof.
  intros Hd. apply list_find_None, Forall_app. split.
  - apply Forall_forall. intros y [Hn _]%list_elem_of_filter [Hk _]. by apply Hn.
  - apply Forall_singleton. intros (_ & Hused & Hlive).
    destruct Hd as [Hd|Hd]; [congruence | lia].
Qed.

Lemma next_verifyOTP_match now t e e' p hotp c :
  e ≠ "" → p ∈ purpose_enum →
  NextOTP.email_setters e' = NextOTP.email_setters e →
  t < now + 10 * 60 * 1000 →
  NextOTP.verifyOTP t e' (generateOTP hotp) p
    (filter (λ d, ¬ NextOTP.by_key e p d) c ++ [NextOTP.issued_doc now e p hotp])
  = (filter (λ d, ¬ NextOTP.by_key e p d) c
       ++ [NextOTP.mkIOTP (NextOTP.email_setters e) (generateOTP hotp) p
             (now + 10 * 60 * 1000) true],
     Return verified).
Proof.
  intros He Hp Hcase Hlive. unfold NextOTP.verifyOTP, NextOTP.save_at.
  rewrite (next_find_issued now t e e') by done. simpl.
  rewrite bool_decide_true by done. rewrite next_issued_valid by done.
  rewrite insert_app_r_alt by done. by rewrite Nat.sub_diag.
Qed.

Lemma next_verifyOTP_mismatch now t e e' p hotp submitted c :
  NextOTP.email_setters e' = NextOTP.email_setters e →
  t < now + 10 * 60 * 1000 →
  submitted ≠ generateOTP hotp →
  NextOTP.verifyOTP t e' submitted p
    (filter (λ d, ¬ NextOTP.by_key e p d) c ++ [NextOTP.issued_doc now e p hotp])
  = (filter (λ d, ¬ NextOTP.by_key e p d) c ++ [NextOTP.issued_doc now e p hotp],
     Return invalid_code).
Proof.
  intros Hcase Hlive Hne. unfold NextOTP.verifyOTP.
  rewrite (next_find_issued now t e e') by done. simpl.
  by rewrite bool_decide_false by congruence.
Qed.

Lemma next_verifyOTP_none t e p submitted d c :
  NextOTP.isUsed d = true ∨ NextOTP.expiresAt d ≤ t →
  NextOTP.verifyOTP t e submitted p
    (filter (λ d, ¬ NextOTP.by_key e p d) c ++ [d])
  = (filter (λ d, ¬ NextOTP.by_key e p d) c ++ [d], Return NextOTP.not_found).
Proof.
  intros Hd. unfold NextOTP.verifyOTP. by rewrite next_find_none.
Qed.

(** A submission changes the collection [createOTP] leaves only when it
    carries the code. *)
Lemma next_verifyOTP_wrong_inert now t e p hotp submitted c :
  submitted ≠ generateOTP hotp →
  (NextOTP.verifyOTP t e submitted p
     (filter (λ d, ¬ NextOTP.by_key e p d) c ++ [NextOTP.issued_doc now e p hotp])).1
  = filter (λ d, ¬ NextOTP.by_key e p d) c ++ [NextOTP.issued_doc now e p hotp].
Proof.
  intros Hne. destruct (decide (t < now + 10 * 60 * 1000)) as [Hlive|Hdead].
  - by rewrite (next_verifyOTP_mismatch now t e e).
  - rewrite next_verifyOTP_none; [done|]. right. simpl. lia.
Qed.






(** C10. When [verifyOTP] finds an active record whose [attempts] has
    reached 5, it answers with the too-many-attempts message whatever
    code is submitted and leaves the collection as it was; and in
    every collection a history of calls builds, no record has
    [attempts] above 5. *)
Theorem attempts_never_exceed_cap :
  (∀ now e submitted p c i d,
     findOne (active_at now e p) c = Some (i, d) → 5 ≤ attempts d →
     verifyOTP now e submitted p c =
       (c, Return (mkVerdict false
                     "Too many attempts. Please request a new OTP."))) ∧
  (∀ c d, reachable c → d ∈ c → attempts d ≤ 5).
Proof.
  split.
  - intros now e submitted p c i d Hfind Hcap.
    by eapply verifyOTP_too_many.
  - intros c d (_ & Hcap & _)%reachable_consistent Hd.
    unfold attempts_capped in Hcap. rewrite Forall_forall in Hcap.
    by apply Hcap.
Qed.

(** ** Verification of a stored hash *)

(** The [save] of [verifyOTP] is rejected whenever the record it found
    stores a hash: [code] is then 60 code units long and the schema
    asks for 6. *)
Lemma verifyOTP_hash_rejected now e submitted p c i d :
  findOne (active_at now e p) c = Some (i, d) → attempts d < 5 →
  (∃ plain salt, code d = bcrypt_hash plain 12 salt) →
  ∃ paths,
    "code" ∈ paths ∧
    verifyOTP now e submitted p c =
      (c, Throw (verification_failed (ValidationError paths))).
Proof.
  intros Hfind Hlt (plain & salt & Hcode).
  assert ("code" ∈ invalid_paths (set_attempts (attempts d + 1) d)) as Hin.
  { apply code_rejected. simpl. rewrite Hcode, bcrypt_hash_length. lia. }
  destruct (invalid_paths (set_attempts (attempts d + 1) d))
    as [|path paths] eqn:Hpaths; [by apply elem_of_nil in Hin|].
  exists (path :: paths). split; [done|]. by eapply verifyOTP_rejected.
Qed.

(** Hence [verifyOTP] writes nothing to a collection of hashes. *)
Lemma verifyOTP_inert now e submitted p c :
  stored_hashes c → (verifyOTP now e submitted p c).1 = c.
Proof.
  intros Hh.
  destruct (findOne (active_at now e p) c) as [[i d]|] eqn:Hfind;
    [|by rewrite verifyOTP_not_found].
  destruct (decide (attempts d < 5)) as [Hlt|Hge];
    [|rewrite (verifyOTP_too_many _ _ _ _ _ i d); [done..|lia]].
  pose proof Hfind as (Hi & _)%findOne_Some.
  destruct (verifyOTP_hash_rejected now e submitted p c i d Hfind Hlt)
    as (paths & _ & ->); [|done].
  exact (proj1 (Forall_lookup _ _) Hh i d Hi).
Qed.

Lemma submit_all_inert e p subs c :
  stored_hashes c → submit_all e p subs c = c.
Proof.
  intros Hh. induction subs as [|sub subs IH]; [done|].
  simpl. by rewrite verifyOTP_inert.
Qed.

(** Right after an issuance, for any casing of the address and any
    submitted code. *)
Lemma verifyOTP_issued t now e e' submitted p hotp salt c :
  acceptable e p → email_setters e' = email_setters e →
  t < now + expire_minutes * 60 * 1000 →
  verifyOTP t e' submitted p (others e p c ++ [issued_doc now e p hotp salt]) =
    (others e p c ++ [issued_doc now e p hotp salt],
     Throw (verification_failed (ValidationError ["code"]))).
Proof.
  intros Hok He Hlive.
  eapply verifyOTP_rejected; [by apply findOne_issued | simpl; lia|].
  by apply invalid_paths_issued.
Qed.

(** C1 (what the code does at an issued record). Right after
    [createOTP] returns, the record it stored is eligible (unused,
    unexpired, no attempt counted) and the returned code compares equal
    to the stored hash; yet [verifyOTP] with the same address and
    purpose and that code does not answer [valid = true]: its [save] is
    rejected by the validators of [code], nothing is written, so
    [isUsed] stays false, and the call throws. *)
Theorem verifyOTP_correct_code_throws now t e p hotp salt c c' r :
  createOTP now e p hotp salt c = (c', Return r) →
  t < issued_expiresAt r →
  (∃ i d, findOne (active_at t e p) c' = Some (i, d) ∧
          isUsed d = false ∧ attempts d = 0 ∧ t < expiresAt d ∧
          bcrypt_compare (otp r) (code d) = true) ∧
  verifyOTP t e (otp r) p c' =
    (c', Throw (ErrorFrom "OTP verification failed: "
                  (ValidationError ["code"]))).
Proof.
  intros (Hok & -> & ->)%createOTP_returns Hlive. simpl in Hlive. split.
  - exists (length (others e p c)), (issued_doc now e p hotp salt).
    split; [by apply findOne_issued|]. simpl.
    repeat split; try done; apply bcrypt_compare_hash.
  - by apply verifyOTP_issued.
Qed.

(** C2 (what the code does at an issued record). After [createOTP]
    returns, submissions made for the address and purpose before the
    record expires, whatever their number and their codes, leave the
    collection as it was: the record keeps [attempts = 0]; and a
    further submission, with any code, is not answered with the
    too-many-attempts message: it throws as the ones before it. *)
Theorem verifyOTP_attempts_not_counted now e p hotp salt c c' r subs t6 sixth :
  createOTP now e p hotp salt c = (c', Return r) →
  Forall (λ sub : Z * string, sub.1 < issued_expiresAt r) subs →
  t6 < issued_expiresAt r →
  submit_all e p subs c' = c' ∧
  (∃ d, keyed e p (submit_all e p subs c') = [d] ∧ attempts d = 0) ∧
  verifyOTP t6 e sixth p (submit_all e p subs c') =
    (c', Throw (ErrorFrom "OTP verification failed: "
                  (ValidationError ["code"]))).
Proof.
  intros (Hok & -> & ->)%createOTP_returns Hsubs Hlive.
  simpl in Hsubs, Hlive.
  assert (submit_all e p subs (others e p c ++ [issued_doc now e p hotp salt])
          = others e p c ++ [issued_doc now e p hotp salt]) as Hsame.
  { induction subs as [|[t sub] subs IH]; [done|].
    apply Forall_cons in Hsubs as [Ht Hsubs]. simpl in *.
    rewrite verifyOTP_issued by done. by apply IH. }
  rewrite Hsame. split; [done|]. split.
  - exists (issued_doc now e p hotp salt). by rewrite keyed_issued.
  - by apply verifyOTP_issued.
Qed.


(** C7 (what the code does at an issued record). In a collection that
    a history of calls has built, when [verifyOTP] finds an eligible
    record and the submitted code does not match, it does not answer
    with the invalid-code message: the [save] that would count the
    attempt is rejected by the validators of [code], the collection is
    left as it was and the call throws; a later call with a matching
    code, before the record expires, throws the same way. *)
Theorem verifyOTP_mismatch_throws now e submitted p c i d :
  reachable c →
  findOne (active_at now e p) c = Some (i, d) → attempts d < 5 →
  bcrypt_compare submitted (code d) = false →
  (∃ paths,
     "code" ∈ paths ∧
     verifyOTP now e submitted p c =
       (c, Throw (ErrorFrom "OTP verification failed: "
                    (ValidationError paths)))) ∧
  ∀ now' correct,
    now' < expiresAt d → bcrypt_compare correct (code d) = true →
    ∃ paths,
      "code" ∈ paths ∧
      verifyOTP now' e correct p c =
        (c, Throw (ErrorFrom "OTP verification failed: "
                     (ValidationError paths))).
Proof.
  intros (Hu & _ & Hh)%reachable_consistent Hfind Hlt Hcmp.
  pose proof Hfind as (Hi & [Hk [Hunused _]]%matches_active_at & _)%findOne_Some.
  pose proof (proj1 (Forall_lookup _ _) Hh i d Hi) as Hhash. simpl in Hhash.
  split; [by eapply verifyOTP_hash_rejected|].
  intros now' correct Hlive Hok.
  eapply verifyOTP_hash_rejected; [|done..].
  by apply findOne_active.
Qed.

(** C9 (what the code does at an issued record). The address is stored
    lowercased and a filter on it is lowercased the same way: after
    [createOTP] for an address, a query with the same address in any
    casing finds the stored record while it has not expired; yet
    [verifyOTP] with the returned code does not answer [valid = true],
    in any casing: it throws. *)
Theorem verifyOTP_any_casing_throws now t e1 e2 p hotp salt c :
  Js.toLowerCase e1 = Js.toLowerCase e2 →
  acceptable e1 p →
  t < now + expire_minutes * 60 * 1000 →
  ∃ c' r d,
    createOTP now e1 p hotp salt c = (c', Return r) ∧
    email d = Js.trim (Js.toLowerCase e1) ∧
    findOne (active_at t e1 p) c' = Some (length c' - 1, d)%nat ∧
    findOne (active_at t e2 p) c' = Some (length c' - 1, d)%nat ∧
    verifyOTP t e2 (otp r) p c' =
      (c', Throw (ErrorFrom "OTP verification failed: "
                    (ValidationError ["code"]))).
Proof.
  intros Hcase Hok Hlive.
  assert (email_setters e2 = email_setters e1) as He
    by (unfold email_setters; by rewrite Hcase).
  eexists _, _, (issued_doc now e1 p hotp salt).
  split; [by apply createOTP_accepts|]. simpl. split; [done|].
  rewrite length_app, Nat.add_sub. simpl.
  split; [by apply findOne_issued|]. split; [by apply findOne_issued|].
  by apply verifyOTP_issued.
Qed.

(** ** Housekeeping: [cleanupExpiredOTPs] and the TTL index *)

Lemma cleanupExpiredOTPs_kept now c :
  (cleanupExpiredOTPs now c).1 = filter (λ d, now ≤ expiresAt d) c.
Proof.
  unfold cleanupExpiredOTPs, deleteMany; simpl. apply list_filter_iff.
  intros d. rewrite matches_expired_before. lia.
Qed.

(** The document a query returns, without its position. *)
Lemma find_in_filter (Q P : OTPDoc → Prop)
    `{∀ d, Decision (Q d)} `{∀ d, Decision (P d)} c :
  (∀ d, Q d → P d) →
  snd <$> list_find Q (filter P c) = snd <$> list_find Q c.
Proof.
  intros HQP. induction c as [|d c IH]; [done|].
  rewrite filter_cons. destruct (decide (P d)) as [HP|HP]; simpl.
  - destruct (decide (Q d)); [done|].
    destruct (list_find Q (filter P c)) as [[i x]|],
             (list_find Q c) as [[j y]|]; simpl in *; congruence.
  - destruct (decide (Q d)) as [HQ|HQ]; [by destruct HP; apply HQP|].
    rewrite IH. by destruct (list_find Q c) as [[j y]|].
Qed.

(** The answer of [verifyOTP] depends on the collection through the
    document its query returns only. *)
Lemma verifyOTP_answer_found now e submitted p c1 c2 :
  snd <$> findOne (active_at now e p) c1 =
  snd <$> findOne (active_at now e p) c2 →
  (verifyOTP now e submitted p c1).2 = (verifyOTP now e submitted p c2).2.
Proof.
  unfold verifyOTP, save_at.
  destruct (findOne _ c1) as [[i d]|], (findOne _ c2) as [[j d']|];
    simpl; intros [=]; [subst d'|done].
  destruct (5 <=? attempts d); [done|].
  destruct (invalid_paths (set_attempts (attempts d + 1) d)); [|done].
  destruct (bcrypt_compare submitted _); [|done].
  by destruct (invalid_paths (set_isUsed true _)).
Qed.

(** X2. Housekeeping never changes what a later verification answers:
    for [now ≤ now'], [verifyOTP] at [now'] gives the same answer on
    the collection swept at [now], by [cleanupExpiredOTPs] or by the TTL
    index, as on the collection left unswept. *)
Theorem sweep_keeps_answers now now' e submitted p c :
  now ≤ now' →
  (verifyOTP now' e submitted p (cleanupExpiredOTPs now c).1).2 =
    (verifyOTP now' e submitted p c).2 ∧
  (verifyOTP now' e submitted p (ttl_expire now c)).2 =
    (verifyOTP now' e submitted p c).2.
Proof.
  intros Hle. split; apply verifyOTP_answer_found; unfold findOne.
  - rewrite cleanupExpiredOTPs_kept.
    apply find_in_filter. intros d [_ [_ Hd]]%matches_active_at. lia.
  - unfold ttl_expire. apply find_in_filter.
    intros d [_ [_ Hd]]%matches_active_at. lia.
Qed.

(** ** [getOTPInfo] *)

Lemma matches_unused e p d :
  matches (cast (unused e p)) d ↔
  key d = (email_setters e, p) ∧ isUsed d = false.
Proof. filter_prop. Qed.

Lemma getOTPInfo_found e p c i d :
  findOne (unused e p) c = Some (i, d) → getOTPInfo e p c = Some (info_of d).
Proof. unfold getOTPInfo. by intros ->. Qed.

(** X3. Under the one-document-per-pair invariant, [getOTPInfo]
    reports the document of the pair exactly when it is unused,
    whether or not it has expired: for an unused document whose
    [expiresAt] is reached it still returns the information while
    [verifyOTP] already answers that no record is found. *)
Theorem getOTPInfo_ignores_expiry now e submitted p c i d :
  unique_keys c →
  c !! i = Some d →
  key d = (email_setters e, p) →
  getOTPInfo e p c = (if isUsed d then None else Some (info_of d)) ∧
  (expiresAt d ≤ now →
   verifyOTP now e submitted p c = (c, Return not_found)).
Proof.
  intros Hu Hi Hk. split.
  - destruct (isUsed d) eqn:Hused.
    + unfold getOTPInfo.
      destruct (findOne (unused e p) c) as [[j y]|] eqn:Hfind; [|done].
      apply findOne_Some in Hfind as (Hj & [Hky Hy]%matches_unused & _).
      assert (j = i) by (eapply unique_keys_lookup; eauto; congruence).
      subst j. congruence.
    + apply (getOTPInfo_found _ _ _ i). unfold findOne.
      apply list_find_Some. split; [done|].
      split; [by apply matches_unused|].
      intros j y Hj Hlt [Hky _]%matches_unused.
      assert (j = i) by (eapply unique_keys_lookup; eauto; congruence). lia.
  - intros Hexp. apply verifyOTP_not_found.
    eapply findOne_inactive; eauto. unfold active. lia.
Qed.

(** X4. After [createOTP] has returned for an address and purpose,
    [getOTPInfo] for any address the setters of the schema take to the
    same stored form reports the new record: the address as stored,
    the purpose, the expiry that was returned, no attempt and the
    instant of issuance; the code is not part of the report. *)
Theorem getOTPInfo_after_createOTP now e e' p hotp salt c c' r :
  createOTP now e p hotp salt c = (c', Return r) →
  email_setters e' = email_setters e →
  getOTPInfo e' p c' =
    Some (mkInfo (email_setters e) p (issued_expiresAt r) 0 now).
Proof.
  intros (_ & -> & ->)%createOTP_returns He. simpl.
  apply (getOTPInfo_found _ _ _ (length (others e p c))
           (issued_doc now e p hotp salt)).
  unfold findOne. apply list_find_Some. split.
  { by rewrite lookup_app_r, Nat.sub_diag. }
  split; [apply matches_unused; by rewrite He|].
  intros j y Hj Hlt [Hky _]%matches_unused.
  rewrite lookup_app_l in Hj by done.
  apply list_elem_of_lookup_2, others_fresh in Hj. congruence.
Qed.

(** ** Histories: what every built collection satisfies *)

Lemma reachable_invariant (I : Collection → Prop) :
  I [] → (∀ c timed, I c → I (step c timed)) →
  ∀ c, reachable c → I c.
Proof.
  intros Hnil Hstep c [calls <-]. unfold run.
  generalize (@nil OTPDoc) Hnil.
  induction calls as [|timed calls IH]; intros c0 Hc0; [done|].
  simpl. by apply IH, Hstep.
Qed.

Lemma createOTP_well_keyed now e p hotp salt c :
  well_keyed c → well_keyed (createOTP now e p hotp salt c).1.
Proof.
  intros Hc. destruct (decide (acceptable e p)) as [Hok|Hno].
  - rewrite createOTP_accepts by done. simpl.
    apply Forall_app. split; [by apply Forall_filter_docs|].
    by apply Forall_singleton.
  - destruct (createOTP_rejects now e p hotp salt c Hno) as [paths ->].
    by apply Forall_filter_docs.
Qed.

Lemma verifyOTP_well_keyed now e submitted p c :
  well_keyed c → well_keyed (verifyOTP now e submitted p c).1.
Proof.
  unfold well_keyed. intros Hc.
  destruct (verifyOTP_collection now e submitted p c)
    as [-> | (i & d & u & Hi & _ & _ & ->)]; [done|].
  apply Forall_insert; [done|].
  exact (proj1 (Forall_lookup _ _) Hc i d Hi).
Qed.

Lemma reachable_well_keyed c : reachable c → well_keyed c.
Proof.
  apply reachable_invariant; [apply Forall_nil_2|].
  intros c0 [now call] Hc.
  destruct call as [e p hotp salt|e submitted p|e p hotp salt| |]; simpl.
  - by apply createOTP_well_keyed.
  - by apply verifyOTP_well_keyed.
  - destruct (resendOTP_collection now e p hotp salt c0) as [-> | ->];
      [done | by apply createOTP_well_keyed].
  - by apply Forall_filter_docs.
  - by apply Forall_filter_docs.
Qed.

(** No stored document is scoped by a pair [createOTP] rejects. *)
Lemma others_rejected e p c :
  well_keyed c → ¬ acceptable e p → others e p c = c.
Proof.
  intros Hc Hno. unfold others.
  induction Hc as [|d c [Hd1 Hd2] Hc IH]; [done|].
  rewrite filter_cons. destruct (decide _) as [_|Hk]; [by rewrite IH|].
  destruct Hk. intros [He Hp]%key_eq. apply Hno.
  split; congruence.
Qed.

(** X5. On a collection built by the statics, [createOTP] called with
    an address that fails the e-mail validator, or with a purpose
    outside the enumeration, throws a validation error wrapped once and
    leaves the collection as it was: the deletion that comes first
    finds no record under such a pair. [resendOTP] does the same, with
    the error wrapped twice. *)
Theorem rejected_issuance_is_inert now e p hotp salt c :
  reachable c → ¬ acceptable e p →
  ∃ paths,
    paths ≠ [] ∧
    createOTP now e p hotp salt c =
      (c, Throw (ErrorFrom "Failed to create OTP: " (ValidationError paths))) ∧
    resendOTP now e p hotp salt c =
      (c, Throw (ErrorFrom "Failed to resend OTP: "
                   (ErrorFrom "Failed to create OTP: "
                      (ValidationError paths)))).
Proof.
  intros Hc%reachable_well_keyed Hno.
  assert (createOTP now e p hotp salt c =
            (c, Throw (ErrorFrom "Failed to create OTP: "
                  (ValidationError
                     (invalid_paths
                        (new_doc now e (generateOTP hotp) p
                           (now + expire_minutes * 60 * 1000))))))) as Hcreate.
  { unfold createOTP, save_new. rewrite deleteMany_by_key, others_rejected by done.
    destruct (invalid_paths _) as [|path paths] eqn:E; [|done].
    by apply invalid_paths_new in E. }
  eexists. split; [|split; [exact Hcreate|]].
  - intros E. by apply invalid_paths_new in E.
  - unfold resendOTP.
    destruct (findOne _ c) as [[i x]|] eqn:Hfind; [|by rewrite Hcreate].
    apply findOne_Some in Hfind as (Hi & [Hk _]%matches_created_since & _).
    apply list_elem_of_lookup_2 in Hi.
    unfold well_keyed in Hc. rewrite Forall_forall in Hc.
    destruct (Hc x Hi) as [Hx1 Hx2]. apply key_eq in Hk as [He Hp].
    destruct Hno. split; congruence.
Qed.

(** ** Issuance followed by other calls *)

Lemma others_issued now e p hotp salt c :
  others e p (others e p c ++ [issued_doc now e p hotp salt]) = others e p c.
Proof.
  assert (¬ key (issued_doc now e p hotp salt) ≠ (email_setters e, p))
    as Hown by (intros Hk; by apply Hk).
  unfold others at 1. rewrite filter_app.
  rewrite filter_singleton_False by done.
  rewrite app_nil_r. unfold others. rewrite list_filter_filter.
  apply list_filter_iff. tauto.
Qed.

Lemma keyed_is_issued now e p hotp salt c d :
  d ∈ others e p c ++ [issued_doc now e p hotp salt] →
  key d = (email_setters e, p) → d = issued_doc now e p hotp salt.
Proof.
  intros [Hd|Hd%list_elem_of_singleton]%elem_of_app Hk; [|done].
  by apply others_fresh in Hd.
Qed.

(** X6. After [createOTP] has returned at [now], [resendOTP] for the
    pair is refused up to and including the instant [now + 60000],
    also when its clock reads an instant before [now], and leaves the
    collection as it is; from the next millisecond on it hands over to
    [createOTP], and when that returns, the record of the pair is
    replaced by the new one and the new code is returned. *)
Theorem resendOTP_after_createOTP now t e p hotp salt hotp' salt' c c' r :
  createOTP now e p hotp salt c = (c', Return r) →
  (t ≤ now + 60 * 1000 →
   resendOTP t e p hotp' salt' c' =
     (c', Throw (ErrorFrom "Failed to resend OTP: "
            (Error "Please wait at least 1 minute before requesting a new OTP")))) ∧
  (now + 60 * 1000 < t →
   ∀ c'' r',
     createOTP t e p hotp' salt' c' = (c'', Return r') →
     resendOTP t e p hotp' salt' c' = (c'', Return r') ∧
     c'' = filter (λ d, key d ≠ (email_setters e, p)) c
             ++ [issued_doc t e p hotp' salt'] ∧
     otp r' = generateOTP hotp').
Proof.
  intros (Hok & -> & _)%createOTP_returns. split.
  - intros Ht. unfold resendOTP.
    destruct (findOne (created_since (t - 60 * 1000) e p)
                (others e p c ++ [issued_doc now e p hotp salt]))
      as [[i d]|] eqn:Hfind; [done|].
    rewrite findOne_None in Hfind.
    destruct (Hfind (issued_doc now e p hotp salt)).
    + apply elem_of_app. right. apply list_elem_of_here.
    + apply matches_created_since. simpl. split; [done | lia].
  - intros Ht c'' r' Hret. unfold resendOTP.
    destruct (findOne (created_since (t - 60 * 1000) e p)
                (others e p c ++ [issued_doc now e p hotp salt]))
      as [[i d]|] eqn:Hfind.
    + apply findOne_Some in Hfind
        as (Hi & [Hk Hrecent]%matches_created_since & _).
      apply list_elem_of_lookup_2 in Hi.
      rewrite (keyed_is_issued _ _ _ _ _ _ _ Hi Hk) in Hrecent.
      simpl in Hrecent. lia.
    + rewrite Hret. split; [done|].
      apply createOTP_returns in Hret as (_ & -> & ->).
      by rewrite others_issued.
Qed.

Lemma findOne_issued_expired t now e e' p hotp salt c :
  email_setters e' = email_setters e →
  now + expire_minutes * 60 * 1000 ≤ t →
  findOne (active_at t e' p) (others e p c ++ [issued_doc now e p hotp salt])
  = None.
Proof.
  intros He Hexp. apply findOne_None.
  intros d Hd [Hk [_ Hlive]]%matches_active_at. rewrite He in Hk.
  rewrite (keyed_is_issued _ _ _ _ _ _ _ Hd Hk) in Hlive.
  simpl in Hlive. lia.
Qed.

(** X7. A negative [OTP_EXPIRE_MINUTES] is taken as it is: when
    [createOTP] returns under such a setting, the expiry it returns is
    before the instant of issuance, and from that instant on
    [verifyOTP] answers that no record is found, whatever code is
    submitted. *)
Theorem negative_expiry_is_born_expired now t e submitted p hotp salt c c' r :
  createOTP now e p hotp salt c = (c', Return r) →
  expire_minutes < 0 → now ≤ t →
  issued_expiresAt r < now ∧
  verifyOTP t e submitted p c' = (c', Return not_found).
Proof.
  intros (_ & -> & ->)%createOTP_returns Hneg Ht. simpl.
  split; [lia|].
  apply verifyOTP_not_found, findOne_issued_expired; [done | lia].
Qed.

Lemma step_untouched c timed :
  stored_hashes c ∧ untouched c →
  stored_hashes (step c timed) ∧ untouched (step c timed).
Proof.
  destruct timed as [now call]. intros [Hh Hu].
  destruct call as [e p hotp salt|e submitted p|e p hotp salt| |]; simpl.
  - split; apply createOTP_Forall; try done.
    by exists (generateOTP hotp), salt.
  - by rewrite verifyOTP_inert.
  - destruct (resendOTP_collection now e p hotp salt c) as [-> | ->];
      [done|].
    split; apply createOTP_Forall; try done.
    by exists (generateOTP hotp), salt.
  - split; by apply Forall_filter_docs.
  - split; by apply Forall_filter_docs.
Qed.

(** X8. In every collection a history of calls to the statics builds,
    no record is marked used and no record has a counted attempt:
    [createOTP] stores [isUsed = false] and [attempts = 0], and no
    [save] of [verifyOTP] on a stored hash is accepted. *)
Theorem history_never_writes_verification c d :
  reachable c → d ∈ c → isUsed d = false ∧ attempts d = 0.
Proof.
  intros Hc Hd.
  assert (stored_hashes c ∧ untouched c) as [_ Hu].
  { clear Hd. revert c Hc. apply reachable_invariant;
      [split; apply Forall_nil_2 | intros c timed; apply step_untouched]. }
  unfold untouched in Hu. rewrite Forall_forall in Hu. by apply Hu.
Qed.

(** X9. In every collection a history of calls to the statics builds,
    no two records share their address and purpose, every stored
    address passes the e-mail validator as it is stored, every stored
    purpose is one of the four of the enumeration, and every stored
    code is 60 code units long. *)
Theorem history_invariants c :
  reachable c →
  NoDup ((λ d, (email d, purpose d)) <$> c) ∧
  ∀ d, d ∈ c →
    Regex.test emailRegex (email d) = true ∧
    purpose d ∈ ["signup"; "login"; "password_reset"; "email_verification"] ∧
    String.length (code d) = 60%nat.
Proof.
  intros Hc. pose proof (reachable_consistent c Hc) as (Hu & _ & Hh).
  pose proof (reachable_well_keyed c Hc) as Hk.
  split; [exact Hu|]. intros d Hd.
  unfold well_keyed in Hk. rewrite Forall_forall in Hk.
  unfold stored_hashes in Hh. rewrite Forall_forall in Hh.
  destruct (Hk d Hd) as [He Hp]. destruct (Hh d Hd) as (plain & salt & ->).
  by rewrite bcrypt_hash_length.
Qed.

(** ** The setters of the address *)

Lemma lower_char_idem a : Js.lower_char (Js.lower_char a) = Js.lower_char a.
Proof. destruct a as [[] [] [] [] [] [] [] []]; vm_compute; reflexivity. Qed.

Lemma is_space_lower a : Js.is_space (Js.lower_char a) = Js.is_space a.
Proof. destruct a as [[] [] [] [] [] [] [] []]; vm_compute; reflexivity. Qed.

Lemma toLowerCase_idem s :
  Js.toLowerCase (Js.toLowerCase s) = Js.toLowerCase s.
Proof.
  induction s as [|a s IH]; simpl; [done|]. by rewrite lower_char_idem, IH.
Qed.

Lemma trimStart_toLowerCase s :
  Js.trimStart (Js.toLowerCase s) = Js.toLowerCase (Js.trimStart s).
Proof.
  induction s as [|a s IH]; simpl; [done|]. rewrite is_space_lower.
  by destruct (Js.is_space a).
Qed.

Lemma trimEnd_toLowerCase s :
  Js.trimEnd (Js.toLowerCase s) = Js.toLowerCase (Js.trimEnd s).
Proof.
  induction s as [|a s IH]; simpl; [done|]. rewrite IH.
  destruct (Js.trimEnd s); simpl; [|done].
  rewrite is_space_lower. by destruct (Js.is_space a).
Qed.

Lemma trimEnd_idem s : Js.trimEnd (Js.trimEnd s) = Js.trimEnd s.
Proof.
  induction s as [|a s IH]; simpl; [done|].
  destruct (Js.trimEnd s) as [|b t] eqn:Ht.
  - destruct (Js.is_space a) eqn:Ha; simpl; [done|]. by rewrite Ha.
  - change (Js.trimEnd (String a (String b t))) with
      (match Js.trimEnd (String b t) with
       | EmptyString =>
           if Js.is_space a then EmptyString else String a EmptyString
       | u => String a u
       end).
    by rewrite IH.
Qed.

(** What [trimStart] leaves does not start with white space. *)
Lemma trimStart_head s :
  match Js.trimStart s with
  | EmptyString => True
  | String a _ => Js.is_space a = false
  end.
Proof.
  induction s as [|a s IH]; simpl; [done|].
  by destruct (Js.is_space a) eqn:Ha; [|simpl].
Qed.

Lemma trimStart_trimEnd s :
  match s with
  | EmptyString => True
  | String a _ => Js.is_space a = false
  end →
  Js.trimStart (Js.trimEnd s) = Js.trimEnd s.
Proof.
  destruct s as [|a s]; simpl; [done|]. intros Ha.
  destruct (Js.trimEnd s); rewrite ?Ha; simpl; by rewrite Ha.
Qed.

Lemma trim_idem s : Js.trim (Js.trim s) = Js.trim s.
Proof.
  unfold Js.trim.
  rewrite (trimStart_trimEnd (Js.trimStart s)) by apply trimStart_head.
  apply trimEnd_idem.
Qed.

Lemma trim_toLowerCase s :
  Js.trim (Js.toLowerCase s) = Js.toLowerCase (Js.trim s).
Proof.
  unfold Js.trim. by rewrite trimStart_toLowerCase, trimEnd_toLowerCase.
Qed.

Lemma email_setters_idem e : email_setters (email_setters e) = email_setters e.
Proof.
  unfold email_setters.
  rewrite <- (trim_toLowerCase (Js.toLowerCase e)), toLowerCase_idem.
  apply trim_idem.
Qed.

(** [toLowerCase] beyond the ASCII letters: ['ÀNN@x.com'] is stored as
    ['ànn@x.com']. *)
Example email_setters_latin1 :
  email_setters (String (ascii_of_N 192) "NN@x.com") =
    String (ascii_of_N 224) "nn@x.com".
Proof. vm_compute. reflexivity. Qed.

(** X19. On the strings of code units below 256, the setters of the
    address are idempotent: an address that went through [lowercase]
    and [trim] is left as it is by them, so a filter on an address as
    it is stored is the filter on the address as it was given; the
    stored form holds none of the code units [toLowerCase] changes and
    no white space at either end. *)
Theorem email_setters_normal_form e p :
  email_setters (email_setters e) = email_setters e ∧
  cast (by_key (email_setters e) p) = cast (by_key e p) ∧
  Js.toLowerCase (email_setters e) = email_setters e ∧
  Js.trim (email_setters e) = email_setters e.
Proof.
  split; [apply email_setters_idem|].
  split; [unfold cast, by_key; simpl; by rewrite email_setters_idem|].
  unfold email_setters. split; [|apply trim_idem].
  by rewrite <- trim_toLowerCase, toLowerCase_idem.
Qed.

Lemma reachable_normal c :
  reachable c → Forall (λ d, email_setters (email d) = email d) c.
Proof.
  apply reachable_invariant; [apply Forall_nil_2|].
  intros c0 [now call] Hc.
  destruct call as [e p hotp salt|e submitted p|e p hotp salt| |]; simpl.
  - apply createOTP_Forall; [apply email_setters_idem | done].
  - destruct (verifyOTP_collection now e submitted p c0)
      as [-> | (i & d & u & Hi & _ & _ & ->)]; [done|].
    apply Forall_insert; [done|].
    exact (proj1 (Forall_lookup _ _) Hc i d Hi).
  - destruct (resendOTP_collection now e p hotp salt c0) as [-> | ->];
      [done | apply createOTP_Forall; [apply email_setters_idem | done]].
  - by apply Forall_filter_docs.
  - by apply Forall_filter_docs.
Qed.

Lemma reachable_untouched c : reachable c → untouched c.
Proof.
  intros Hc.
  apply (reachable_invariant (λ c, stored_hashes c ∧ untouched c)); [| |done].
  - split; apply Forall_nil_2.
  - intros c0 timed. apply step_untouched.
Qed.

(** X20. Every record a history of calls has left in the collection is
    found again under its own stored address and purpose:
    [getOTPInfo] on them reports that record. *)
Theorem stored_record_is_found c d :
  reachable c → d ∈ c →
  getOTPInfo (email d) (purpose d) c = Some (info_of d).
Proof.
  intros Hc [i Hi]%list_elem_of_lookup_1.
  pose proof (reachable_consistent c Hc) as (Hu & _ & _).
  pose proof (proj1 (Forall_lookup _ _) (reachable_normal c Hc) i d Hi) as Hn.
  pose proof (proj1 (Forall_lookup _ _) (reachable_untouched c Hc) i d Hi)
    as [Hused _].
  simpl in Hn. apply (getOTPInfo_found _ _ _ i). unfold findOne.
  apply list_find_Some. split; [done|].
  split; [apply matches_unused; unfold key; by rewrite Hn|].
  intros j y Hj Hlt [Hky _]%matches_unused.
  assert (j = i); [|lia].
  eapply unique_keys_lookup; eauto. unfold key in *. by rewrite Hn in Hky.
Qed.

(** ** The controllers of the OTP routes *)

(** On a collection of stored hashes with no counted attempt,
    [verifyOTP] finds no record or has its first [save] rejected. *)
Lemma verifyOTP_never_returns_valid now e submitted p c :
  stored_hashes c → untouched c →
  verifyOTP now e submitted p c = (c, Return not_found) ∨
  ∃ paths, verifyOTP now e submitted p c =
             (c, Throw (verification_failed (ValidationError paths))).
Proof.
  intros Hh Hu.
  destruct (findOne (active_at now e p) c) as [[i d]|] eqn:Hfind;
    [right | left; by apply verifyOTP_not_found].
  pose proof Hfind as (Hi & _)%findOne_Some.
  pose proof (proj1 (Forall_lookup _ _) Hu i d Hi) as [_ Hatt]. simpl in Hatt.
  destruct (verifyOTP_hash_rejected now e submitted p c i d Hfind)
    as (paths & _ & Hv); [lia | |by exists paths].
  exact (proj1 (Forall_lookup _ _) Hh i d Hi).
Qed.

(** X21. On every collection a history of calls to the statics has
    built, the controller of the verify route never answers success
    and never changes the collection: it answers 400 with
    [Validation failed] or [Invalid or expired OTP], or hands the
    rejected [save] to the error handler. *)
Theorem controller_verifyOTP_never_succeeds sv invalid now b c :
  reachable c →
  (controller_verifyOTP sv invalid now b c).1 = c ∧
  ((controller_verifyOTP sv invalid now b c).2 = Json 400 false "Validation failed" ∨
   (controller_verifyOTP sv invalid now b c).2 =
     Json 400 false "Invalid or expired OTP" ∨
   ∃ paths, (controller_verifyOTP sv invalid now b c).2 =
              NextError (ErrorFrom "OTP verification failed: "
                           (ValidationError paths))).
Proof.
  intros Hc. unfold controller_verifyOTP.
  destruct invalid; [split; [done | by left]|].
  pose proof (reachable_untouched c Hc) as Hu.
  pose proof (reachable_consistent c Hc) as (_ & _ & Hh).
  destruct (verifyOTP_never_returns_valid now (body_email b) (body_code b)
              (default "signup" (body_purpose b)) c Hh Hu)
    as [-> | [paths ->]]; simpl.
  - split; [done | right; by left].
  - split; [done | right; right; by exists paths].
Qed.

Lemma controller_sendOTP_issued sv now hotp salt b c c1 r :
  controller_sendOTP sv false now hotp salt b c = (c1, r) →
  issued_reply (body_email b) r →
  ∃ i,
    createOTP now (body_email b) (default "signup" (body_purpose b)) hotp
      salt c = (c1, Return i) ∧
    (bool_decide (default "signup" (body_purpose b) = "login")
     || bool_decide (default "signup" (body_purpose b) = "password_reset"))
    && negb (registered sv (body_email b)) = false ∧
    bool_decide (default "signup" (body_purpose b) = "signup")
    && registered sv (body_email b) = false.
Proof.
  unfold controller_sendOTP, issued_reply. simpl.
  set (e := body_email b). set (p := default "signup" (body_purpose b)).
  destruct ((bool_decide (p = "login") || bool_decide (p = "password_reset"))
            && negb (registered sv e)); [by intros [= <- <-] [[=]|[=]]|].
  destruct (bool_decide (p = "signup") && registered sv e);
    [by intros [= <- <-] [[=]|[=]]|].
  destruct (createOTP now e p hotp salt c) as [c' [i|err]].
  - destruct (sendOTPEmail sv e (otp i) p); intros [= <- <-] _; by exists i.
  - by intros [= <- <-] [[=]|[=]].
Qed.

(** X22. The cooldown of [resendOTP] does not guard the send route.
    Once the controller of the send route has issued a code (it has
    answered 200, or 500 because the mail could not be sent), the same
    request at any instant at which [createOTP] returns is served
    again: the record of the pair is replaced by one with the new
    code. Within the minute the controller of the resend route hands
    the refusal to the error handler and leaves the collection as it
    is. *)
Theorem controller_sendOTP_ignores_cooldown
    sv now t hotp salt hotp' salt' b c c1 r c2 i2 :
  controller_sendOTP sv false now hotp salt b c = (c1, r) →
  issued_reply (body_email b) r →
  createOTP t (body_email b) (default "signup" (body_purpose b)) hotp' salt'
    c1 = (c2, Return i2) →
  (∃ r2, controller_sendOTP sv false t hotp' salt' b c1 = (c2, r2) ∧
         issued_reply (body_email b) r2) ∧
  c2 = others (body_email b) (default "signup" (body_purpose b)) c
         ++ [issued_doc t (body_email b) (default "signup" (body_purpose b))
               hotp' salt'] ∧
  (t ≤ now + 60 * 1000 →
   controller_resendOTP sv false t hotp' salt' b c1 =
     (c1, NextError (ErrorFrom "Failed to resend OTP: "
            (Error "Please wait at least 1 minute before requesting a new OTP")))).
Proof.
  intros Hfirst Hr Hsecond.
  destruct (controller_sendOTP_issued _ _ _ _ _ _ _ _ Hfirst Hr)
    as (i & Hret & Hknown & Hnew).
  set (e := body_email b) in *. set (p := default "signup" (body_purpose b)) in *.
  pose proof Hret as (Hok & -> & _)%createOTP_returns.
  split; [|split].
  - unfold controller_sendOTP, issued_reply. simpl. fold e p.
    rewrite Hknown, Hnew, Hsecond.
    destruct (sendOTPEmail sv e (otp i2) p); eexists; split; eauto.
  - apply createOTP_returns in Hsecond as (_ & -> & _).
    by rewrite others_issued.
  - intros Ht. unfold controller_resendOTP, resendOTP. simpl. fold e p.
    destruct (findOne (created_since (t - 60 * 1000) e p)
                (others e p c ++ [issued_doc now e p hotp salt]))
      as [[j d]|] eqn:Hfind; [done|].
    rewrite findOne_None in Hfind.
    destruct (Hfind (issued_doc now e p hotp salt)).
    + apply elem_of_app. right. apply list_elem_of_here.
    + apply matches_created_since. simpl. split; [done | lia].
Qed.

(** X25. With the mailer of the repository, whose call of
    [nodemailer.createTransporter] throws, the controllers of the send
    and resend routes never answer success: whatever the request and
    the collection, no reply is a 200. *)
Theorem controllers_never_report_sent users login invalid now hotp salt b c m :
  (controller_sendOTP (repository users login) invalid now hotp salt b c).2
    ≠ Json 200 true m ∧
  (controller_resendOTP (repository users login) invalid now hotp salt b c).2
    ≠ Json 200 true m.
Proof.
  unfold controller_sendOTP, controller_resendOTP, repository. simpl.
  destruct invalid; [done|]. split.
  - destruct (_ && negb _); [done|]. destruct (_ && _); [done|].
    by destruct (createOTP _ _ _ _ _ _) as [c' [i|err]].
  - by destruct (resendOTP _ _ _ _ _ _) as [c' [i|err]].
Qed.

End Statics.

(** ** The statics on concrete inputs *)

Lemma fit_length n s : String.length (fit n s) = n.
Proof.
  revert s. induction n as [|n IH]; intros s; [done|].
  destruct s; simpl; by rewrite IH.
Qed.

Lemma demo_compare_hash data rounds salt :
  demo_compare data (demo_hash data rounds salt) = true.
Proof. unfold demo_compare, demo_hash. by apply bool_decide_eq_true. Qed.

Lemma length_append (a b : string) :
  String.length (a +:+ b) = (String.length a + String.length b)%nat.
Proof. induction a as [|x a IH]; simpl; [done | by rewrite IH]. Qed.

Lemma demo_hash_length data rounds salt :
  String.length (demo_hash data rounds salt) = 60%nat.
Proof. unfold demo_hash. by rewrite length_append, fit_length. Qed.

Lemma demo_createOTP :
  createOTP demo_hash None 1000 "Ann@X.com" "signup" 123456 "salt" [] =
    ([demo_doc], Return demo_issued).
Proof. vm_compute. reflexivity. Qed.

Lemma demo_acceptable : acceptable "Ann@X.com" "signup".
Proof. split; [vm_compute; reflexivity | apply list_elem_of_here]. Qed.

Lemma demo_unique : unique_keys [demo_doc].
Proof. apply NoDup_singleton. Qed.

Lemma demo_reachable : reachable demo_hash demo_compare None [demo_doc].
Proof.
  exists [(1000, CallCreate "Ann@X.com" "signup" 123456 "salt")].
  vm_compute. reflexivity.
Qed.

Lemma verifyOTP_correct_code_throws_witness :
  verifyOTP demo_compare 2000 "Ann@X.com" "123456" "signup" [demo_doc] =
    ([demo_doc], Throw demo_rejected).
Proof.
  apply (verifyOTP_correct_code_throws demo_hash demo_compare
           demo_compare_hash demo_hash_length None 1000 2000 "Ann@X.com"
           "signup" 123456 "salt" [] [demo_doc] demo_issued demo_createOTP).
  simpl. lia.
Defined.

Lemma verifyOTP_attempts_not_counted_witness :
  submit_all demo_compare "Ann@X.com" "signup"
    [(2000, "000000"); (3000, "000001"); (4000, "000002");
     (5000, "000003"); (6000, "000004")] [demo_doc] = [demo_doc] ∧
  verifyOTP demo_compare 7000 "Ann@X.com" "123456" "signup" [demo_doc] =
    ([demo_doc], Throw demo_rejected).
Proof.
  destruct (verifyOTP_attempts_not_counted demo_hash demo_compare
              demo_hash_length None 1000 "Ann@X.com" "signup" 123456 "salt"
              [] [demo_doc] demo_issued
              [(2000, "000000"); (3000, "000001"); (4000, "000002");
               (5000, "000003"); (6000, "000004")] 7000 "123456"
              demo_createOTP)
    as (Hsame & _ & Hsixth); [repeat constructor; simpl; lia | simpl; lia|].
  split; [exact Hsame|]. by rewrite Hsame in Hsixth.
Defined.







Lemma verifyOTP_mismatch_throws_witness :
  (∃ paths,
     verifyOTP demo_compare 2000 "ann@x.com" "000000" "signup" [demo_doc] =
       ([demo_doc],
        Throw (ErrorFrom "OTP verification failed: " (ValidationError paths)))) ∧
  (∃ paths,
     verifyOTP demo_compare 3000 "ann@x.com" "123456" "signup" [demo_doc] =
       ([demo_doc],
        Throw (ErrorFrom "OTP verification failed: " (ValidationError paths)))).
Proof.
  destruct (verifyOTP_mismatch_throws demo_hash demo_compare demo_hash_length
              None 2000 "ann@x.com" "000000" "signup" [demo_doc] 0%nat demo_doc)
    as [(paths & _ & Hfirst) Hlater];
    [apply demo_reachable | vm_compute; reflexivity | simpl; lia
    | vm_compute; reflexivity |].
  destruct (Hlater 3000 "123456") as (paths' & _ & Hsecond);
    [simpl; lia | vm_compute; reflexivity|].
  split; [by exists paths | by exists paths'].
Defined.



Lemma verifyOTP_any_casing_throws_witness :
  ∃ c' r,
    createOTP demo_hash None 1000 "Ann@X.com" "signup" 123456 "salt" [] =
      (c', Return r) ∧
    verifyOTP demo_compare 2000 "ANN@x.COM" (otp r) "signup" c' =
      (c', Throw demo_rejected).
Proof.
  destruct (verifyOTP_any_casing_throws demo_hash demo_compare
              demo_hash_length None 1000 2000 "Ann@X.com" "ANN@x.COM" "signup"
              123456 "salt" [])
    as (c' & r & d & Hc & _ & _ & _ & Hv);
    [vm_compute; reflexivity | apply demo_acceptable | simpl; lia |].
  by exists c', r.
Defined.

Lemma attempts_never_exceed_cap_witness :
  verifyOTP demo_compare 2000 "ann@x.com" "123456" "signup" [demo_tried 5] =
    ([demo_tried 5],
     Return (mkVerdict false "Too many attempts. Please request a new OTP.")) ∧
  attempts demo_doc ≤ 5.
Proof.
  destruct (attempts_never_exceed_cap demo_hash demo_compare None)
    as [Hcap Hreach].
  split.
  - apply (Hcap 2000 "ann@x.com" "123456" "signup" [demo_tried 5] 0%nat
             (demo_tried 5)); [vm_compute; reflexivity | simpl; lia].
  - apply (Hreach [demo_doc] demo_doc demo_reachable), list_elem_of_here.
Defined.

Lemma sweep_keeps_answers_witness :
  (verifyOTP demo_compare 2000 "ann@x.com" "123456" "signup"
     (cleanupExpiredOTPs 1500 [demo_other; demo_doc]).1).2 =
    (verifyOTP demo_compare 2000 "ann@x.com" "123456" "signup"
       [demo_other; demo_doc]).2 ∧
  (verifyOTP demo_compare 2000 "ann@x.com" "123456" "signup"
     (ttl_expire 1500 [demo_other; demo_doc])).2 =
    (verifyOTP demo_compare 2000 "ann@x.com" "123456" "signup"
       [demo_other; demo_doc]).2.
Proof.
  apply (sweep_keeps_answers demo_compare 1500 2000 "ann@x.com" "123456"
           "signup" [demo_other; demo_doc]).
  lia.
Defined.

Lemma getOTPInfo_ignores_expiry_witness :
  getOTPInfo "Ann@x.com" "signup" [demo_doc] =
    Some (mkInfo "ann@x.com" "signup" 601000 0 1000) ∧
  verifyOTP demo_compare 601000 "Ann@x.com" "123456" "signup" [demo_doc] =
    ([demo_doc], Return (mkVerdict false "Invalid or expired OTP")).
Proof.
  destruct (getOTPInfo_ignores_expiry demo_compare 601000 "Ann@x.com"
              "123456" "signup" [demo_doc] 0%nat demo_doc)
    as [Hinfo Hverify];
    [apply demo_unique | reflexivity | vm_compute; reflexivity |].
  split; [exact Hinfo | apply Hverify; simpl; lia].
Defined.

Lemma getOTPInfo_after_createOTP_witness :
  getOTPInfo " ANN@x.com" "signup" [demo_other; demo_doc] =
    Some (mkInfo "ann@x.com" "signup" 601000 0 1000).
Proof.
  apply (getOTPInfo_after_createOTP demo_hash None 1000 "Ann@X.com"
           " ANN@x.com" "signup" 123456 "salt" [demo_other]
           [demo_other; demo_doc] demo_issued);
    vm_compute; reflexivity.
Defined.

Lemma rejected_issuance_is_inert_witness :
  ∃ paths,
    paths ≠ [] ∧
    createOTP demo_hash None 2000 "ann.x.com" "signup" 654321 "salt"
      [demo_doc] =
      ([demo_doc],
       Throw (ErrorFrom "Failed to create OTP: " (ValidationError paths))) ∧
    resendOTP demo_hash None 2000 "ann.x.com" "signup" 654321 "salt"
      [demo_doc] =
      ([demo_doc],
       Throw (ErrorFrom "Failed to resend OTP: "
                (ErrorFrom "Failed to create OTP: " (ValidationError paths)))).
Proof.
  apply (rejected_issuance_is_inert demo_hash demo_compare None 2000
           "ann.x.com" "signup" 654321 "salt" [demo_doc]);
    [apply demo_reachable | intros [Hmail _]; vm_compute in Hmail; discriminate].
Defined.

Lemma resendOTP_after_createOTP_witness :
  resendOTP demo_hash None 61000 "ann@x.com" "signup" 654321 "salt"
    [demo_doc] =
    ([demo_doc],
     Throw (ErrorFrom "Failed to resend OTP: "
       (Error "Please wait at least 1 minute before requesting a new OTP"))) ∧
  resendOTP demo_hash None 61001 "ann@x.com" "signup" 654321 "salt"
    [demo_doc] =
    ([mkOTP "ann@x.com" (demo_hash "654321" 12 "salt") "signup" 661001 0 false
            61001],
     Return (mkIssued "654321" 661001 "signup")).
Proof.
  destruct (resendOTP_after_createOTP demo_hash None 1000 61000 "ann@x.com"
              "signup" 123456 "salt" 654321 "salt" [] [demo_doc] demo_issued)
    as [Hwait _]; [vm_compute; reflexivity|].
  destruct (resendOTP_after_createOTP demo_hash None 1000 61001 "ann@x.com"
              "signup" 123456 "salt" 654321 "salt" [] [demo_doc] demo_issued)
    as [_ Hlater]; [vm_compute; reflexivity|].
  split; [apply Hwait; lia|].
  apply (Hlater ltac:(lia)
           [mkOTP "ann@x.com" (demo_hash "654321" 12 "salt") "signup" 661001
                  0 false 61001]
           (mkIssued "654321" 661001 "signup")).
  vm_compute. reflexivity.
Defined.

Lemma negative_expiry_is_born_expired_witness :
  issued_expiresAt (mkIssued "123456" 700000 "signup") < 1000000 ∧
  verifyOTP demo_compare 1000000 "Ann@X.com" "123456" "signup"
    [mkOTP "ann@x.com" (demo_hash "123456" 12 "salt") "signup" 700000 0 false
           1000000] =
    ([mkOTP "ann@x.com" (demo_hash "123456" 12 "salt") "signup" 700000 0 false
            1000000],
     Return (mkVerdict false "Invalid or expired OTP")).
Proof.
  apply (negative_expiry_is_born_expired demo_hash demo_compare (Some (-5))
           1000000 1000000 "Ann@X.com" "123456" "signup" 123456 "salt" []
           [mkOTP "ann@x.com" (demo_hash "123456" 12 "salt") "signup" 700000 0
                  false 1000000]
           (mkIssued "123456" 700000 "signup"));
    [vm_compute; reflexivity | reflexivity | lia].
Defined.

Lemma history_never_writes_verification_witness :
  isUsed demo_doc = false ∧ attempts demo_doc = 0.
Proof.
  apply (history_never_writes_verification demo_hash demo_compare
           demo_hash_length None [demo_doc] demo_doc demo_reachable).
  apply list_elem_of_here.
Defined.

Lemma history_invariants_witness :
  NoDup ((λ d, (email d, purpose d)) <$> [demo_doc]) ∧
  String.length (code demo_doc) = 60%nat.
Proof.
  destruct (history_invariants demo_hash demo_compare demo_hash_length None
              [demo_doc] demo_reachable) as [Hnodup Hdocs].
  split; [exact Hnodup|].
  apply (Hdocs demo_doc), list_elem_of_here.
Defined.

Lemma stored_record_is_found_witness :
  getOTPInfo "ann@x.com" "signup" [demo_doc] =
    Some (mkInfo "ann@x.com" "signup" 601000 0 1000).
Proof.
  apply (stored_record_is_found demo_hash demo_compare demo_hash_length None
           [demo_doc] demo_doc demo_reachable).
  apply list_elem_of_here.
Defined.

Lemma controller_verifyOTP_never_succeeds_witness :
  (controller_verifyOTP demo_compare demo_open false 2000
     (mkBody "Ann@X.com" "123456" None) [demo_doc]).1 = [demo_doc] ∧
  ((controller_verifyOTP demo_compare demo_open false 2000
      (mkBody "Ann@X.com" "123456" None) [demo_doc]).2 =
     Json 400 false "Validation failed" ∨
   (controller_verifyOTP demo_compare demo_open false 2000
      (mkBody "Ann@X.com" "123456" None) [demo_doc]).2 =
     Json 400 false "Invalid or expired OTP" ∨
   ∃ paths,
     (controller_verifyOTP demo_compare demo_open false 2000
        (mkBody "Ann@X.com" "123456" None) [demo_doc]).2 =
       NextError (ErrorFrom "OTP verification failed: " (ValidationError paths))).
Proof.
  apply (controller_verifyOTP_never_succeeds demo_hash demo_compare
           demo_hash_length None demo_open false 2000
           (mkBody "Ann@X.com" "123456" None) [demo_doc] demo_reachable).
Defined.

Lemma controller_sendOTP_ignores_cooldown_witness :
  controller_sendOTP demo_hash None (repository (λ _, false) (λ _, None))
    false 1000 654321 "salt" (mkBody "ann@x.com" "" None) [demo_doc] =
    ([mkOTP "ann@x.com" (demo_hash "654321" 12 "salt") "signup" 601000 0 false
            1000],
     Json 500 false "Failed to send OTP email") ∧
  controller_resendOTP demo_hash None (repository (λ _, false) (λ _, None))
    false 1000 654321 "salt" (mkBody "ann@x.com" "" None) [demo_doc] =
    ([demo_doc],
     NextError (ErrorFrom "Failed to resend OTP: "
       (Error "Please wait at least 1 minute before requesting a new OTP"))).
Proof.
  destruct (controller_sendOTP_ignores_cooldown demo_hash None
              (repository (λ _, false) (λ _, None)) 1000 1000 123456 "salt"
              654321 "salt" (mkBody "ann@x.com" "" None) [] [demo_doc]
              (Json 500 false "Failed to send OTP email")
              [mkOTP "ann@x.com" (demo_hash "654321" 12 "salt") "signup"
                     601000 0 false 1000]
              (mkIssued "654321" 601000 "signup"))
    as ((r2 & Hsend & _) & _ & Hresend);
    [vm_compute; reflexivity | by right | vm_compute; reflexivity |].
  split; [|apply Hresend; lia].
  rewrite Hsend. f_equal. by vm_compute in Hsend; injection Hsend as <-.
Defined.

(** ** The second model on the same inputs *)

(** In the model of [lib/models/OTP.ts] the code returned by [createOTP]
    verifies: the stored document passes the validators when it is
    saved again. *)
Lemma next_verifyOTP_after_createOTP now t e p hotp c :
  NextOTP.required (NextOTP.email_setters e) = true → p ∈ purpose_enum →
  t < now + 10 * 60 * 1000 →
  ∃ c' r c'',
    NextOTP.createOTP now e p hotp c = (c', Return r) ∧
    NextOTP.verifyOTP t e (NextOTP.issued_otp r) p c' = (c'', Return verified).
Proof.
  intros He Hp Hlive.
  assert (NextOTP.required (generateOTP hotp) = true) as Hcode.
  { unfold NextOTP.required. by rewrite bool_decide_false;
      [|rewrite generateOTP_length]. }
  set (d := NextOTP.mkIOTP (NextOTP.email_setters e) (generateOTP hotp) p
                           (now + 10 * 60 * 1000) false).
  set (c1 := filter (λ d, ¬ NextOTP.by_key e p d) c).
  assert (NextOTP.createOTP now e p hotp c =
            (c1 ++ [d], Return (NextOTP.mkIssued (generateOTP hotp)
                                                 (now + 10 * 60 * 1000))))
    as Hcreate.
  { unfold NextOTP.createOTP, NextOTP.create, NextOTP.invalid_paths; simpl.
    by rewrite He, Hcode, (bool_decide_true _ Hp). }
  assert (list_find (NextOTP.active_at t e p) (c1 ++ [d]) = Some (length c1, d))
    as Hfind.
  { apply list_find_Some. split; [by rewrite lookup_app_r, Nat.sub_diag|].
    split; [done|]. intros j y Hj Hlt [Hk _].
    rewrite lookup_app_l in Hj by done.
    by apply list_elem_of_lookup_2, list_elem_of_filter in Hj as [Hn _]. }
  eexists _, _, _. split; [exact Hcreate|].
  unfold NextOTP.verifyOTP, NextOTP.save_at, NextOTP.invalid_paths.
  rewrite Hfind. simpl. rewrite bool_decide_true by done.
  by rewrite He, Hcode, (bool_decide_true _ Hp).
Qed.

Lemma next_verifyOTP_after_createOTP_instance :
  ∃ c' r c'',
    NextOTP.createOTP 1000 "Ann@X.com" "signup" 123456 [] = (c', Return r) ∧
    NextOTP.verifyOTP 2000 "ANN@x.com" (NextOTP.issued_otp r) "signup" c' =
      (c'', Return (mkVerdict true "OTP verified successfully")).
Proof. eexists _, _, _. split; vm_compute; reflexivity. Qed.

(** ** The model of [lib/models/OTP.ts]: what its statics guarantee *)

(** X10. In the model of [lib/models/OTP.ts] a code verifies once:
    before the ten minutes are over [verifyOTP] accepts the code
    [createOTP] returned, and after that every call for the pair, at
    any instant and with any code, answers that no OTP is found. *)
Theorem next_code_verifies_once now t t' e p hotp submitted c :
  e ≠ "" → p ∈ purpose_enum →
  t < now + 10 * 60 * 1000 →
  ∃ c1,
    NextOTP.verifyOTP t e (generateOTP hotp) p
      (NextOTP.createOTP now e p hotp c).1 = (c1, Return verified) ∧
    NextOTP.verifyOTP t' e submitted p c1 =
      (c1, Return (mkVerdict false "OTP not found or expired")).
Proof.
  intros He Hp Hlive. rewrite next_createOTP_accepts by done. simpl.
  eexists. split; [by apply next_verifyOTP_match|].
  apply next_verifyOTP_none. by left.
Qed.

(** X11. The model of [lib/models/OTP.ts] counts no attempts: any
    number of wrong codes leaves the collection as [createOTP] left
    it, each of them submitted in time is answered [Invalid OTP code],
    and the right code submitted in time after them is accepted. *)
Theorem next_wrong_codes_unbounded now t e p hotp subs c :
  e ≠ "" → p ∈ purpose_enum →
  Forall (λ sub : Z * string, sub.2 ≠ generateOTP hotp) subs →
  t < now + 10 * 60 * 1000 →
  let c1 := (NextOTP.createOTP now e p hotp c).1 in
  NextOTP.submit_all e p subs c1 = c1 ∧
  Forall (λ sub : Z * string,
            sub.1 < now + 10 * 60 * 1000 →
            NextOTP.verifyOTP sub.1 e sub.2 p c1 =
              (c1, Return (mkVerdict false "Invalid OTP code"))) subs ∧
  ∃ c2, NextOTP.verifyOTP t e (generateOTP hotp) p
          (NextOTP.submit_all e p subs c1) = (c2, Return verified).
Proof.
  intros He Hp Hsubs Hlive. rewrite next_createOTP_accepts by done. simpl.
  assert (NextOTP.submit_all e p subs
            (filter (λ d, ¬ NextOTP.by_key e p d) c
               ++ [NextOTP.issued_doc now e p hotp])
          = filter (λ d, ¬ NextOTP.by_key e p d) c
              ++ [NextOTP.issued_doc now e p hotp]) as Hsame.
  { unfold NextOTP.submit_all.
    induction Hsubs as [|sub subs Hsub _ IH]; [done|].
    simpl. by rewrite (next_verifyOTP_wrong_inert now). }
  split; [exact Hsame|]. split.
  - eapply Forall_impl; [exact Hsubs|]. intros sub Hne Hsub.
    by apply (next_verifyOTP_mismatch now).
  - rewrite Hsame. eexists. by apply next_verifyOTP_match.
Qed.

Lemma next_filter_issued e p d c :
  NextOTP.by_key e p d →
  filter (λ d, ¬ NextOTP.by_key e p d)
    (filter (λ d, ¬ NextOTP.by_key e p d) c ++ [d])
  = filter (λ d, ¬ NextOTP.by_key e p d) c.
Proof.
  intros Hd. rewrite filter_app, list_filter_filter.
  assert (filter (λ d, ¬ NextOTP.by_key e p d) [d] = []) as ->.
  { assert (¬ ¬ NextOTP.by_key e p d) as Hnn by tauto.
    by rewrite filter_singleton_False by done. }
  rewrite app_nil_r. apply list_filter_iff. tauto.
Qed.

(** X12. [resendOTP] of [lib/models/OTP.ts] has no cooldown: called at
    any instant after [createOTP], the very same included, it replaces
    the record of the pair by a new one and returns the new code; the
    code issued first, when it differs, is then answered
    [Invalid OTP code]. *)
Theorem next_resendOTP_no_cooldown now t t' e p hotp hotp' c :
  e ≠ "" → p ∈ purpose_enum →
  let c1 := (NextOTP.createOTP now e p hotp c).1 in
  let c2 := filter (λ d, ¬ NextOTP.by_key e p d) c
              ++ [NextOTP.issued_doc t e p hotp'] in
  NextOTP.resendOTP t e p hotp' c1 =
    (c2, Return (NextOTP.mkIssued (generateOTP hotp') (t + 10 * 60 * 1000))) ∧
  (generateOTP hotp ≠ generateOTP hotp' → t' < t + 10 * 60 * 1000 →
   NextOTP.verifyOTP t' e (generateOTP hotp) p c2 =
     (c2, Return (mkVerdict false "Invalid OTP code"))).
Proof.
  intros He Hp. rewrite next_createOTP_accepts by done. simpl. split.
  - unfold NextOTP.resendOTP. rewrite next_createOTP_accepts by done.
    by rewrite next_filter_issued.
  - intros Hne Ht'. by apply (next_verifyOTP_mismatch t).
Qed.

Lemma next_filter_disjoint e p c :
  filter (NextOTP.by_key e p) (filter (λ d, ¬ NextOTP.by_key e p d) c) = [].
Proof.
  induction c as [|d c IH]; [done|]. rewrite filter_cons.
  destruct (decide (¬ NextOTP.by_key e p d)) as [Hn|Hn]; [|done].
  rewrite filter_cons. by destruct (decide (NextOTP.by_key e p d)).
Qed.

(** X13. [lib/models/OTP.ts] stores the code as it is returned, and
    compares by string equality: on the collection [createOTP] leaves,
    the only stored [otp] of the pair is the returned code, and a
    submission in time is accepted exactly when it is that string. *)
Theorem next_verifyOTP_exact_code now t e p hotp submitted c :
  e ≠ "" → p ∈ purpose_enum →
  t < now + 10 * 60 * 1000 →
  let c1 := (NextOTP.createOTP now e p hotp c).1 in
  NextOTP.otp <$> filter (NextOTP.by_key e p) c1 = [generateOTP hotp] ∧
  ((NextOTP.verifyOTP t e submitted p c1).2 = Return verified ↔
   submitted = generateOTP hotp).
Proof.
  intros He Hp Hlive. rewrite next_createOTP_accepts by done. simpl. split.
  - rewrite filter_app.
    rewrite next_filter_disjoint. simpl.
    by rewrite filter_singleton_True.
  - split.
    + intros Hv. destruct (decide (submitted = generateOTP hotp)); [done|].
      rewrite (next_verifyOTP_mismatch now t e e) in Hv by done. done.
    + intros ->. by rewrite next_verifyOTP_match.
Qed.

(** ** The handlers of [pages/api/auth/otp] *)

Lemma missing_false v :
  NextApi.missing v = false ↔ ∃ s, v = Some s ∧ s ≠ "".
Proof.
  destruct v as [s|]; simpl.
  - rewrite bool_decide_eq_false. split; [by exists s|].
    by intros (s' & [= <-] & Hs).
  - split; [done | by intros (s & [=] & _)].
Qed.

Lemma generateOTP_nonempty hotp : generateOTP hotp ≠ "".
Proof.
  intros Hnil. pose proof (generateOTP_length hotp) as Hlen.
  by rewrite Hnil in Hlen.
Qed.

(** [createOTP] of [lib/models/OTP.ts] throws on a purpose outside the
    enumeration. *)
Lemma next_createOTP_rejects now e p hotp c :
  p ∉ purpose_enum → ∃ err, (NextOTP.createOTP now e p hotp c).2 = Throw err.
Proof.
  intros Hp. unfold NextOTP.createOTP, NextOTP.create, NextOTP.invalid_paths.
  simpl. rewrite (bool_decide_false _ Hp).
  destruct (NextOTP.required _), (NextOTP.required _); simpl; by eexists.
Qed.

(** X14. The handler that sends a code answers 200 exactly when the
    request is a POST with a non-empty address, the database is
    reached, the purpose (signup when absent) is one of the four, the
    address has an account for login and password_reset and has none
    for signup, and [sendOTPEmail] reports the code delivered. *)
Theorem send_answers_200_iff sv now hotp req c :
  NextApi.status (NextApi.send sv now hotp req c).2 = 200 ↔
  NextApi.method req = "POST" ∧ NextApi.connectDB sv = true ∧
  ∃ email,
    let purpose := default "signup" (NextApi.body_purpose req) in
    NextApi.body_email req = Some email ∧ email ≠ "" ∧
    purpose ∈ purpose_enum ∧
    (purpose = "login" ∨ purpose = "password_reset" →
     NextApi.registered sv email = true) ∧
    (purpose = "signup" → NextApi.registered sv email = false) ∧
    NextApi.sendOTPEmail sv email (generateOTP hotp) purpose = true.
Proof.
  unfold NextApi.send.
  set (purpose := default "signup" (NextApi.body_purpose req)).
  destruct (decide (NextApi.method req = "POST")) as [Hm|Hm];
    [rewrite (bool_decide_true _ Hm) | rewrite (bool_decide_false _ Hm)];
    simpl; [|split; [done | tauto]].
  destruct (NextApi.connectDB sv); simpl; [|split; [done | by intros (_ & ? & _)]].
  destruct (NextApi.missing (NextApi.body_email req)) eqn:Hmiss; simpl.
  { split; [done|]. intros (_ & _ & email & Hbody & Hne & _).
    assert (NextApi.missing (NextApi.body_email req) = false) as Hf
      by (apply missing_false; eauto).
    congruence. }
  apply missing_false in Hmiss as (email & -> & Hne). simpl.
  destruct (decide (purpose ∈ purpose_enum)) as [Hp|Hp].
  - rewrite next_createOTP_accepts by done. simpl.
    destruct (NextApi.registered sv email) eqn:Hreg; simpl;
      rewrite ?andb_false_r, ?andb_true_r; simpl.
    + destruct (decide (purpose = "signup")) as [Hs|Hs];
        [rewrite (bool_decide_true _ Hs) | rewrite (bool_decide_false _ Hs)];
        simpl.
      { split; [done|]. intros (_ & _ & em & [= <-] & _ & _ & _ & Hno & _).
        specialize (Hno Hs). congruence. }
      destruct (NextApi.sendOTPEmail sv email (generateOTP hotp) purpose)
        eqn:Hsent; simpl.
      * split; [|done]. intros _. split; [done|]. split; [done|].
        exists email. by repeat split.
      * split; [done|]. intros (_ & _ & em & [= <-] & _ & _ & _ & _ & Hs').
        congruence.
    + destruct (decide (purpose = "login")) as [Hl|Hl];
        [rewrite (bool_decide_true _ Hl) | rewrite (bool_decide_false _ Hl)];
        simpl.
      { split; [done|]. intros (_ & _ & em & [= <-] & _ & _ & Hyes & _).
        specialize (Hyes (or_introl Hl)). congruence. }
      destruct (decide (purpose = "password_reset")) as [Hr|Hr];
        [rewrite (bool_decide_true _ Hr) | rewrite (bool_decide_false _ Hr)];
        simpl.
      { split; [done|]. intros (_ & _ & em & [= <-] & _ & _ & Hyes & _).
        specialize (Hyes (or_intror Hr)). congruence. }
      destruct (NextApi.sendOTPEmail sv email (generateOTP hotp) purpose)
        eqn:Hsent; simpl.
      * split; [|done]. intros _. split; [done|]. split; [done|].
        exists email. repeat split; try done. intros [?|?]; congruence.
      * split; [done|]. intros (_ & _ & em & [= <-] & _ & _ & _ & _ & Hs').
        congruence.
  - assert (purpose ≠ "signup" ∧ purpose ≠ "login" ∧ purpose ≠ "password_reset")
      as (Hs & Hl & Hr).
    { repeat split; intros Heq; apply Hp; rewrite Heq; unfold purpose_enum;
        rewrite !elem_of_cons; tauto. }
    rewrite (bool_decide_false _ Hs), (bool_decide_false _ Hl),
      (bool_decide_false _ Hr). simpl.
    destruct (next_createOTP_rejects now email purpose hotp c Hp) as [err Herr].
    destruct (NextOTP.createOTP now email purpose hotp c) as [c' out].
    simpl in Herr. subst out.
    split; [done|]. by intros (_ & _ & em & _ & _ & Hin & _).
Qed.

(** X15. When [sendOTPEmail] reports failure the handler answers 500
    with [Failed to send OTP email], yet the record of the new code is
    in the collection and the records the pair had before are gone:
    the code that was not delivered is accepted by [verifyOTP] until it
    expires. *)
Theorem send_failure_keeps_record sv now t hotp email purpose code c :
  NextApi.connectDB sv = true →
  email ≠ "" → purpose ∈ purpose_enum →
  (purpose = "login" ∨ purpose = "password_reset" →
   NextApi.registered sv email = true) →
  (purpose = "signup" → NextApi.registered sv email = false) →
  NextApi.sendOTPEmail sv email (generateOTP hotp) purpose = false →
  t < now + 10 * 60 * 1000 →
  ∃ c1 c2,
    NextApi.send sv now hotp
      (NextApi.mkRequest "POST" (Some email) code (Some purpose)) c =
      (c1, NextApi.mkResponse 500 (Some false) "Failed to send OTP email" None) ∧
    c1 = filter (λ d, ¬ NextOTP.by_key email purpose d) c
           ++ [NextOTP.issued_doc now email purpose hotp] ∧
    NextOTP.verifyOTP t email (generateOTP hotp) purpose c1 =
      (c2, Return verified).
Proof.
  intros Hdb He Hp Hyes Hno Hsent Hlive.
  eexists _, _. split; [|split; [reflexivity|]].
  - unfold NextApi.send. simpl. rewrite Hdb. simpl.
    rewrite (bool_decide_false _ He). simpl.
    rewrite next_createOTP_accepts by done. simpl. rewrite Hsent.
    destruct (NextApi.registered sv email) eqn:Hreg; simpl;
      rewrite ?andb_false_r, ?andb_true_r; simpl.
    + destruct (decide (purpose = "signup")) as [Hs|Hs];
        [specialize (Hno Hs); congruence|].
      by rewrite (bool_decide_false _ Hs).
    + destruct (decide (purpose = "login")) as [Hl|Hl];
        [specialize (Hyes (or_introl Hl)); congruence|].
      destruct (decide (purpose = "password_reset")) as [Hr|Hr];
        [specialize (Hyes (or_intror Hr)); congruence|].
      by rewrite (bool_decide_false _ Hl), (bool_decide_false _ Hr).
  - by apply next_verifyOTP_match.
Qed.

(** What [verifyOTP] of [lib/models/OTP.ts] does, in two cases: it
    accepts and marks the document it found, or it leaves the
    collection as it is and does not accept. *)
Lemma next_verifyOTP_cases now e code p c :
  (∃ i d,
     c !! i = Some d ∧ NextOTP.active_at now e p d ∧ NextOTP.otp d = code ∧
     NextOTP.verifyOTP now e code p c =
       (<[i := NextOTP.mkIOTP (NextOTP.email d) (NextOTP.otp d)
                 (NextOTP.purpose d) (NextOTP.expiresAt d) true]> c,
        Return verified)) ∨
  ((NextOTP.verifyOTP now e code p c).1 = c ∧
   ∀ v, (NextOTP.verifyOTP now e code p c).2 = Return v → valid v = false).
Proof.
  unfold NextOTP.verifyOTP, NextOTP.save_at.
  destruct (list_find _ c) as [[i d]|] eqn:Hfind.
  - apply list_find_Some in Hfind as (Hi & Hd & _).
    destruct (decide (NextOTP.otp d = code)) as [Hc|Hc];
      [rewrite (bool_decide_true _ Hc) | rewrite (bool_decide_false _ Hc)].
    + destruct (NextOTP.invalid_paths _) eqn:Hpaths.
      * left. by exists i, d.
      * right. by split.
    + right. split; [done|]. by intros v [= <-].
  - right. split; [done|]. by intros v [= <-].
Qed.

(** X16. To a request whose address and code are strings (or absent),
    the handler that verifies a code answers 200, or changes the
    collection at all, only when the collection holds an unused,
    unexpired record of the lowercased address and the purpose whose
    stored code is the submitted string; the collection it leaves is
    the one with that record marked used. *)
Theorem verify_acts_only_on_match sv now req c :
  NextApi.status (NextApi.verify sv now req c).2 = 200 ∨
    (NextApi.verify sv now req c).1 ≠ c →
  ∃ i d email code,
    NextApi.body_email req = Some email ∧ NextApi.body_code req = Some code ∧
    c !! i = Some d ∧
    NextOTP.email d = Js.toLowerCase email ∧
    NextOTP.purpose d = default "signup" (NextApi.body_purpose req) ∧
    NextOTP.otp d = code ∧ NextOTP.isUsed d = false ∧
    now < NextOTP.expiresAt d ∧
    (NextApi.verify sv now req c).1 =
      <[i := NextOTP.mkIOTP (NextOTP.email d) (NextOTP.otp d)
                (NextOTP.purpose d) (NextOTP.expiresAt d) true]> c.
Proof.
  unfold NextApi.verify.
  set (purpose := default "signup" (NextApi.body_purpose req)).
  destruct (bool_decide (NextApi.method req = "POST")); simpl;
    [|intros [[=]|?]; done].
  destruct (NextApi.connectDB sv); simpl; [|intros [[=]|?]; done].
  destruct (NextApi.missing (NextApi.body_email req)) eqn:Hmail; simpl;
    [intros [[=]|?]; done|].
  destruct (NextApi.missing (NextApi.body_code req)) eqn:Hcode; simpl;
    [intros [[=]|?]; done|].
  apply missing_false in Hmail as (email & -> & _).
  apply missing_false in Hcode as (code & -> & _). simpl.
  destruct (next_verifyOTP_cases now email code purpose c)
    as [(i & d & Hi & ((Hmail & Hpur) & Hused & Hlive) & Hotp & ->)
       |[Hsame Hinvalid]].
  - intros _. exists i, d, email, code. simpl.
    repeat (split; [done|]).
    by repeat case_match.
  - destruct (NextOTP.verifyOTP now email code purpose c) as [c' [v|err]];
      simpl in *; subst c'.
    + rewrite (Hinvalid v eq_refl). simpl. intros [[=]|?]; done.
    + intros [[=]|?]; done.
Qed.

(** X17. A login code is spent before the account is looked up: when
    the address has no account, the handler answers 404 to the right
    code and has marked the record used, so that the same request
    repeated is answered 400 with [OTP not found or expired]. *)
Theorem verify_login_spends_code_first sv now t t' email hotp c :
  NextApi.connectDB sv = true →
  email ≠ "" →
  NextApi.registered sv email = false →
  t < now + 10 * 60 * 1000 →
  let req := NextApi.mkRequest "POST" (Some email) (Some (generateOTP hotp))
               (Some "login") in
  ∃ c1,
    NextApi.verify sv t req (NextOTP.createOTP now email "login" hotp c).1 =
      (c1, NextApi.mkResponse 404 (Some false) "User not found" None) ∧
    NextApi.verify sv t' req c1 =
      (c1, NextApi.mkResponse 400 (Some false) "OTP not found or expired" None).
Proof.
  intros Hdb He Hreg Hlive req.
  assert ("login" ∈ purpose_enum) as Hp
    by (unfold purpose_enum; rewrite !elem_of_cons; tauto).
  rewrite next_createOTP_accepts by done. simpl.
  eexists. unfold NextApi.verify, req. simpl. rewrite Hdb. simpl.
  rewrite (bool_decide_false _ He),
    (bool_decide_false _ (generateOTP_nonempty hotp)). simpl.
  rewrite next_verifyOTP_match by done. simpl. rewrite Hreg. simpl.
  split; [reflexivity|].
  rewrite next_verifyOTP_none by (by left). done.
Qed.

(** ** The second model and its handlers on concrete inputs *)

Lemma demo_purpose : "signup" ∈ purpose_enum.
Proof. apply list_elem_of_here. Qed.

Lemma demo_login : "login" ∈ purpose_enum.
Proof. unfold purpose_enum. rewrite !elem_of_cons. tauto. Qed.

Lemma next_code_verifies_once_witness :
  ∃ c1,
    NextOTP.verifyOTP 2000 "Ann@X.com" "123456" "signup"
      (NextOTP.createOTP 1000 "Ann@X.com" "signup" 123456 []).1 =
      (c1, Return verified) ∧
    NextOTP.verifyOTP 3000 "Ann@X.com" "123456" "signup" c1 =
      (c1, Return (mkVerdict false "OTP not found or expired")).
Proof.
  apply (next_code_verifies_once 1000 2000 3000 "Ann@X.com" "signup" 123456
           "123456" []); [discriminate | apply demo_purpose | lia].
Defined.

Lemma next_wrong_codes_unbounded_witness :
  NextOTP.submit_all "ann@x.com" "signup"
    [(2000, "000000"); (2001, "000001"); (2002, "000002"); (2003, "000003");
     (2004, "000004"); (2005, "000005"); (2006, "000006")]
    (NextOTP.createOTP 1000 "ann@x.com" "signup" 123456 []).1 =
    (NextOTP.createOTP 1000 "ann@x.com" "signup" 123456 []).1 ∧
  ∃ c2,
    NextOTP.verifyOTP 3000 "ann@x.com" (generateOTP 123456) "signup"
      (NextOTP.submit_all "ann@x.com" "signup"
         [(2000, "000000"); (2001, "000001"); (2002, "000002");
          (2003, "000003"); (2004, "000004"); (2005, "000005");
          (2006, "000006")]
         (NextOTP.createOTP 1000 "ann@x.com" "signup" 123456 []).1) =
      (c2, Return verified).
Proof.
  destruct (next_wrong_codes_unbounded 1000 3000 "ann@x.com" "signup" 123456
              [(2000, "000000"); (2001, "000001"); (2002, "000002");
               (2003, "000003"); (2004, "000004"); (2005, "000005");
               (2006, "000006")] [])
    as (Hsame & _ & Hright);
    [discriminate | apply demo_purpose
    | repeat constructor; vm_compute; discriminate | lia |].
  split; [exact Hsame | exact Hright].
Defined.

Lemma next_resendOTP_no_cooldown_witness :
  NextOTP.resendOTP 1000 "ann@x.com" "signup" 654321
    (NextOTP.createOTP 1000 "ann@x.com" "signup" 123456 []).1 =
    ([NextOTP.mkIOTP "ann@x.com" "654321" "signup" 601000 false],
     Return (NextOTP.mkIssued "654321" 601000)) ∧
  NextOTP.verifyOTP 2000 "ann@x.com" "123456" "signup"
    [NextOTP.mkIOTP "ann@x.com" "654321" "signup" 601000 false] =
    ([NextOTP.mkIOTP "ann@x.com" "654321" "signup" 601000 false],
     Return (mkVerdict false "Invalid OTP code")).
Proof.
  destruct (next_resendOTP_no_cooldown 1000 1000 2000 "ann@x.com" "signup"
              123456 654321 []) as [Hresend Hold];
    [discriminate | apply demo_purpose |].
  split; [exact Hresend|].
  apply Hold; [vm_compute; discriminate | lia].
Defined.

Lemma next_verifyOTP_exact_code_witness :
  NextOTP.otp <$> filter (NextOTP.by_key "ann@x.com" "signup")
    (NextOTP.createOTP 1000 "ann@x.com" "signup" 123456 []).1 = ["123456"] ∧
  ((NextOTP.verifyOTP 2000 "ann@x.com" " 123456" "signup"
      (NextOTP.createOTP 1000 "ann@x.com" "signup" 123456 []).1).2 =
     Return verified ↔ " 123456" = "123456").
Proof.
  apply (next_verifyOTP_exact_code 1000 2000 "ann@x.com" "signup" 123456
           " 123456" []); [discriminate | apply demo_purpose | lia].
Defined.

Lemma send_failure_keeps_record_witness :
  ∃ c2,
    NextApi.send (NextApi.demo_services false) 1000 123456
      (NextApi.mkRequest "POST" (Some "ann@x.com") None (Some "login")) [] =
      ([NextOTP.mkIOTP "ann@x.com" "123456" "login" 601000 false],
       NextApi.mkResponse 500 (Some false) "Failed to send OTP email" None) ∧
    NextOTP.verifyOTP 2000 "ann@x.com" "123456" "login"
      [NextOTP.mkIOTP "ann@x.com" "123456" "login" 601000 false] =
      (c2, Return verified).
Proof.
  destruct (send_failure_keeps_record (NextApi.demo_services false) 1000 2000
              123456 "ann@x.com" "login" None [])
    as (c1 & c2 & Hsend & -> & Hverify);
    [reflexivity | discriminate | apply demo_login | reflexivity
    | discriminate | reflexivity | lia |].
  exists c2. split; [exact Hsend | exact Hverify].
Defined.

Lemma verify_acts_only_on_match_witness :
  ∃ i d email code,
    Some "Ann@x.com" = Some email ∧ Some "123456" = Some code ∧
    [NextOTP.mkIOTP "ann@x.com" "123456" "signup" 601000 false] !! i = Some d ∧
    NextOTP.email d = Js.toLowerCase email ∧
    NextOTP.purpose d = "signup" ∧
    NextOTP.otp d = code ∧ NextOTP.isUsed d = false ∧
    2000 < NextOTP.expiresAt d ∧
    (NextApi.verify (NextApi.demo_services true) 2000
       (NextApi.mkRequest "POST" (Some "Ann@x.com") (Some "123456") None)
       [NextOTP.mkIOTP "ann@x.com" "123456" "signup" 601000 false]).1 =
      <[i := NextOTP.mkIOTP (NextOTP.email d) (NextOTP.otp d)
                (NextOTP.purpose d) (NextOTP.expiresAt d) true]>
        [NextOTP.mkIOTP "ann@x.com" "123456" "signup" 601000 false].
Proof.
  apply (verify_acts_only_on_match (NextApi.demo_services true) 2000
           (NextApi.mkRequest "POST" (Some "Ann@x.com") (Some "123456") None)
           [NextOTP.mkIOTP "ann@x.com" "123456" "signup" 601000 false]).
  left. vm_compute. reflexivity.
Defined.

Lemma verify_login_spends_code_first_witness :
  ∃ c1,
    NextApi.verify (NextApi.demo_services true) 2000
      (NextApi.mkRequest "POST" (Some "bob@x.com") (Some (generateOTP 123456))
         (Some "login"))
      (NextOTP.createOTP 1000 "bob@x.com" "login" 123456 []).1 =
      (c1, NextApi.mkResponse 404 (Some false) "User not found" None) ∧
    NextApi.verify (NextApi.demo_services true) 3000
      (NextApi.mkRequest "POST" (Some "bob@x.com") (Some (generateOTP 123456))
         (Some "login")) c1 =
      (c1, NextApi.mkResponse 400 (Some false) "OTP not found or expired" None).
Proof.
  apply (verify_login_spends_code_first (NextApi.demo_services true) 1000
           2000 3000 "bob@x.com" 123456 []);
    [reflexivity | discriminate | reflexivity | lia].
Defined.

(** ** The schema of the address: validator and setters *)

Lemma lang_cat_inv r1 r2 l :
  Regex.lang (Regex.Cat r1 r2) l ↔
  ∃ l1 l2, l = l1 ++ l2 ∧ Regex.lang r1 l1 ∧ Regex.lang r2 l2.
Proof.
  split.
  - inversion 1; subst. eauto.
  - intros (l1 & l2 & -> & H1 & H2). by constructor.
Qed.

Lemma lang_alt_inv r1 r2 l :
  Regex.lang (Regex.Alt r1 r2) l ↔ Regex.lang r1 l ∨ Regex.lang r2 l.
Proof.
  split.
  - inversion 1; subst; eauto.
  - intros [H|H]; [by apply Regex.lang_alt_l | by apply Regex.lang_alt_r].
Qed.

Lemma lang_class_inv p l :
  Regex.lang (Regex.Class p) l ↔ ∃ c, l = [c] ∧ p c = true.
Proof.
  split.
  - inversion 1; subst. eauto.
  - intros (c & -> & Hc). by constructor.
Qed.

Lemma nullable_lang r : Regex.nullable r = true ↔ Regex.lang r [].
Proof.
  induction r as [| |p|r1 IH1 r2 IH2|r1 IH1 r2 IH2|r IH]; simpl.
  - split; [done | inversion 1].
  - split; [constructor | done].
  - split; [done | inversion 1].
  - rewrite andb_true_iff, IH1, IH2, lang_cat_inv. split.
    + intros [H1 H2]. by exists [], [].
    + intros (l1 & l2 & Heq & H1 & H2). symmetry in Heq.
      by apply app_eq_nil in Heq as [-> ->].
  - by rewrite orb_true_iff, IH1, IH2, lang_alt_inv.
  - split; [constructor | done].
Qed.

(** A match of [r*] that starts with [c] starts with a match of [r]
    that starts with [c]. *)
Lemma lang_star_cons_inv r c s :
  Regex.lang (Regex.Star r) (c :: s) →
  ∃ s1 s2, s = s1 ++ s2 ∧ Regex.lang r (c :: s1) ∧ Regex.lang (Regex.Star r) s2.
Proof.
  intros H. remember (Regex.Star r) as r' eqn:Hr.
  remember (c :: s) as l eqn:Hl. revert s Hl.
  induction H as [| | | | | |r0 s1 s2 H1 _ H2 IH2]; intros t Hl; try discriminate.
  injection Hr as ->. destruct s1 as [|a s1]; simpl in Hl.
  - by apply IH2.
  - injection Hl as -> <-. by exists s1, s2.
Qed.

Lemma deriv_lang c r s :
  Regex.lang (Regex.deriv c r) s ↔ Regex.lang r (c :: s).
Proof.
  revert s.
  induction r as [| |p|r1 IH1 r2 IH2|r1 IH1 r2 IH2|r IH]; intros s; simpl.
  - split; inversion 1.
  - split; inversion 1.
  - rewrite lang_class_inv. destruct (p c) eqn:Hp; split.
    + inversion 1; subst. by exists c.
    + intros (a & [= <- ->] & _). constructor.
    + inversion 1.
    + intros (a & [= <- ->] & Ha). congruence.
  - assert (Regex.lang (Regex.Cat (Regex.deriv c r1) r2) s ↔
            ∃ l1 l2, s = l1 ++ l2 ∧ Regex.lang r1 (c :: l1) ∧ Regex.lang r2 l2)
      as Hfirst.
    { rewrite lang_cat_inv. by setoid_rewrite IH1. }
    assert (Regex.lang (Regex.Cat r1 r2) (c :: s) ↔
            (∃ l1 l2, s = l1 ++ l2 ∧ Regex.lang r1 (c :: l1) ∧ Regex.lang r2 l2)
            ∨ (Regex.lang r1 [] ∧ Regex.lang r2 (c :: s))) as Hinv.
    { rewrite lang_cat_inv. split.
      - intros (l1 & l2 & Heq & H1 & H2). destruct l1 as [|a l1]; simpl in Heq.
        + right. by subst l2.
        + injection Heq as <- ->. left. by exists l1, l2.
      - intros [(l1 & l2 & -> & H1 & H2)|[H1 H2]].
        + by exists (c :: l1), l2.
        + by exists [], (c :: s). }
    rewrite Hinv, <- Hfirst.
    destruct (Regex.nullable r1) eqn:Hnull.
    + rewrite lang_alt_inv, IH2.
      apply nullable_lang in Hnull. tauto.
    + assert (¬ Regex.lang r1 []) as Hno
        by (intros H%nullable_lang; congruence).
      tauto.
  - by rewrite !lang_alt_inv, IH1, IH2.
  - split.
    + intros (s1 & s2 & -> & H1 & H2)%lang_cat_inv.
      apply (Regex.lang_star_cons _ (c :: s1) s2); [by apply IH | done].
    + intros (s1 & s2 & -> & H1 & H2)%lang_star_cons_inv.
      constructor; [by apply IH | done].
Qed.

(** The matcher by derivatives decides the language of the expression. *)
Lemma test_lang r s :
  Regex.test r s = true ↔ Regex.lang r (String.list_ascii_of_string s).
Proof.
  revert r. induction s as [|c s IH]; intros r; simpl.
  - apply nullable_lang.
  - by rewrite IH, deriv_lang.
Qed.

Lemma lang_star_class p l :
  Regex.lang (Regex.Star (Regex.Class p)) l ↔ Forall (λ c, p c = true) l.
Proof.
  split.
  - intros H. remember (Regex.Star (Regex.Class p)) as r eqn:Hr.
    induction H as [| | | | | |r0 s1 s2 H1 _ H2 IH2]; try discriminate;
      [constructor|].
    injection Hr as ->. inversion H1; subst. simpl.
    constructor; [done | by apply IH2].
  - induction 1 as [|c l Hc _ IH]; [constructor|].
    apply (Regex.lang_star_cons _ [c] l); [by constructor | done].
Qed.

Lemma lang_plus_class p l :
  Regex.lang (Regex.Plus (Regex.Class p)) l ↔
  l ≠ [] ∧ Forall (λ c, p c = true) l.
Proof.
  unfold Regex.Plus. split.
  - inversion 1 as [| |? ? s1 s2 H1 H2| | | |]; subst.
    inversion H1; subst. simpl. split; [done|].
    constructor; [done | by apply lang_star_class].
  - intros [Hne Hall]. destruct Hall as [|c l Hc Hl]; [done|].
    apply (Regex.lang_cat _ _ [c] l); [by constructor | by apply lang_star_class].
Qed.

Lemma lang_lit a l : Regex.lang (Regex.Lit a) l ↔ l = [a].
Proof.
  unfold Regex.Lit. split.
  - inversion 1 as [|p c Hc| | | | |]; subst.
    by apply Ascii.eqb_eq in Hc as ->.
  - intros ->. constructor. apply Ascii.eqb_refl.
Qed.

(** X18. The validator of the address, [/^[^\s@]+@[^\s@]+\.[^\s@]+$/],
    accepts exactly the strings made of a first part, [@], a second
    part, a dot and a last part, the three parts being non-empty and
    free of white space and of [@]. *)
Theorem emailRegex_accepts_exactly s :
  Regex.test emailRegex s = true ↔
  ∃ a b d : list ascii,
    String.list_ascii_of_string s = a ++ "@"%char :: b ++ "."%char :: d ∧
    a ≠ [] ∧ b ≠ [] ∧ d ≠ [] ∧
    Forall (λ c, not_space_at c = true) (a ++ b ++ d).
Proof.
  rewrite test_lang. unfold emailRegex.
  generalize (String.list_ascii_of_string s). intros l. split.
  - intros (a & l1 & -> & [Ha Hfa]%lang_plus_class &
            (x & l2 & -> & ->%lang_lit &
             (b & l3 & -> & [Hb Hfb]%lang_plus_class &
              (y & d & -> & ->%lang_lit & [Hd Hfd]%lang_plus_class
              )%lang_cat_inv)%lang_cat_inv)%lang_cat_inv)%lang_cat_inv.
    exists a, b, d. by rewrite !Forall_app.
  - intros (a & b & d & -> & Ha & Hb & Hd & Hall).
    apply Forall_app in Hall as [Hfa [Hfb Hfd]%Forall_app].
    apply (Regex.lang_cat _ _ a); [by apply lang_plus_class|].
    apply (Regex.lang_cat _ _ ["@"%char]); [by apply lang_lit|].
    apply (Regex.lang_cat _ _ b); [by apply lang_plus_class|].
    apply (Regex.lang_cat _ _ ["."%char]); [by apply lang_lit|].
    by apply lang_plus_class.
Qed.

(** What the handler that sends tells when it answers 200, or 500 for
    a mail that could not be sent: [createOTP] has been reached and has
    returned. *)
Lemma send_issued_inv sv now hotp req c c1 resp :
  NextApi.send sv now hotp req c = (c1, resp) →
  NextApi.status resp = 200 ∨
    resp = NextApi.mkResponse 500 (Some false) "Failed to send OTP email" None →
  ∃ email,
    let purpose := default "signup" (NextApi.body_purpose req) in
    NextApi.body_email req = Some email ∧ email ≠ "" ∧
    NextApi.connectDB sv = true ∧
    purpose ∈ purpose_enum ∧
    (purpose = "login" → NextApi.registered sv email = true) ∧
    (NextApi.status resp = 200 →
     NextApi.sendOTPEmail sv email (generateOTP hotp) purpose = true) ∧
    c1 = filter (λ d, ¬ NextOTP.by_key email purpose d) c
           ++ [NextOTP.issued_doc now email purpose hotp].
Proof.
  unfold NextApi.send.
  set (purpose := default "signup" (NextApi.body_purpose req)).
  destruct (bool_decide (NextApi.method req = "POST")); simpl;
    [|by intros [= <- <-] [[=]|[=]]].
  destruct (NextApi.connectDB sv); simpl; [|by intros [= <- <-] [[=]|[=]]].
  destruct (NextApi.missing (NextApi.body_email req)) eqn:Hmiss; simpl;
    [by intros [= <- <-] [[=]|[=]]|].
  apply missing_false in Hmiss as (email & -> & Hne). simpl.
  destruct ((bool_decide (purpose = "login")
             || bool_decide (purpose = "password_reset"))
            && negb (NextApi.registered sv email)) eqn:Hknown;
    [by intros [= <- <-] [[=]|[=]]|].
  destruct (bool_decide (purpose = "signup") && NextApi.registered sv email);
    [by intros [= <- <-] [[=]|[=]]|].
  destruct (decide (purpose ∈ purpose_enum)) as [Hp|Hp].
  - rewrite next_createOTP_accepts by done. simpl.
    destruct (NextApi.sendOTPEmail sv email (generateOTP hotp) purpose)
      eqn:Hsent; intros [= <- <-] _; exists email; repeat split; try done.
    + intros Hl. rewrite (bool_decide_true _ Hl) in Hknown. simpl in Hknown.
      by destruct (NextApi.registered sv email).
    + intros Hl. rewrite (bool_decide_true _ Hl) in Hknown. simpl in Hknown.
      by destruct (NextApi.registered sv email).
  - destruct (next_createOTP_rejects now email purpose hotp c Hp) as [err Herr].
    destruct (NextOTP.createOTP now email purpose hotp c) as [c' out].
    simpl in Herr. subst out. by intros [= <- <-] [[=]|[=]].
Qed.

(** X23. The two handlers compose. When the handler that sends has
    issued a code (it has answered 200, or 500 because the mail could
    not be sent), the handler that verifies answers 200 to the same
    address and purpose with that code, as long as the ten minutes are
    not over (for a login, provided the token is issued), and answers
    400 with [OTP not found or expired] when the request is
    repeated. *)
Theorem send_then_verify sv now t t' hotp req c c1 resp :
  NextApi.send sv now hotp req c = (c1, resp) →
  NextApi.status resp = 200 ∨
    resp = NextApi.mkResponse 500 (Some false) "Failed to send OTP email" None →
  t < now + 10 * 60 * 1000 →
  (default "signup" (NextApi.body_purpose req) = "login" →
   NextApi.sign_in sv (default "" (NextApi.body_email req)) = true) →
  let req' := NextApi.mkRequest "POST" (NextApi.body_email req)
                (Some (generateOTP hotp)) (NextApi.body_purpose req) in
  ∃ c2 resp',
    NextApi.verify sv t req' c1 = (c2, resp') ∧
    NextApi.status resp' = 200 ∧ NextApi.success resp' = Some true ∧
    NextApi.verify sv t' req' c2 =
      (c2, NextApi.mkResponse 400 (Some false) "OTP not found or expired" None).
Proof.
  intros Hsend Hissued Hlive Hsign.
  destruct (send_issued_inv sv now hotp req c c1 resp Hsend Hissued)
    as (email & Hmail & Hne & Hdb & Hp & Hreg & _ & ->).
  simpl in *. rewrite Hmail in *. simpl in Hsign.
  set (purpose := default "signup" (NextApi.body_purpose req)) in *.
  set (c2 := filter (λ d, ¬ NextOTP.by_key email purpose d) c
               ++ [NextOTP.mkIOTP (NextOTP.email_setters email)
                     (generateOTP hotp) purpose (now + 10 * 60 * 1000) true]).
  assert (NextApi.verify sv t'
            (NextApi.mkRequest "POST" (Some email) (Some (generateOTP hotp))
               (NextApi.body_purpose req)) c2 =
          (c2, NextApi.mkResponse 400 (Some false) "OTP not found or expired"
                 None)) as Hagain.
  { unfold NextApi.verify. simpl. rewrite Hdb. simpl.
    rewrite (bool_decide_false _ Hne),
      (bool_decide_false _ (generateOTP_nonempty hotp)). simpl.
    fold purpose. unfold c2. by rewrite next_verifyOTP_none by (by left). }
  unfold NextApi.verify at 1. simpl. rewrite Hdb. simpl.
  rewrite (bool_decide_false _ Hne),
    (bool_decide_false _ (generateOTP_nonempty hotp)). simpl.
  fold purpose. rewrite next_verifyOTP_match by done. simpl. fold c2.
  destruct (bool_decide (purpose = "signup")); [by eexists _, _|].
  destruct (decide (purpose = "login")) as [Hl|Hl].
  - rewrite (bool_decide_true _ Hl), (Hreg Hl), (Hsign Hl). simpl.
    by eexists _, _.
  - rewrite (bool_decide_false _ Hl).
    destruct (bool_decide (purpose = "password_reset")); by eexists _, _.
Qed.

Lemma send_then_verify_witness :
  ∃ c2 resp',
    NextApi.verify (NextApi.repository true (λ _, true) (λ _, true)) 2000
      (NextApi.mkRequest "POST" (Some "ann@x.com") (Some (generateOTP 123456))
         (Some "login"))
      [NextOTP.mkIOTP "ann@x.com" "123456" "login" 601000 false] =
      (c2, resp') ∧
    NextApi.status resp' = 200 ∧ NextApi.success resp' = Some true ∧
    NextApi.verify (NextApi.repository true (λ _, true) (λ _, true)) 3000
      (NextApi.mkRequest "POST" (Some "ann@x.com") (Some (generateOTP 123456))
         (Some "login")) c2 =
      (c2, NextApi.mkResponse 400 (Some false) "OTP not found or expired" None).
Proof.
  apply (send_then_verify (NextApi.repository true (λ _, true) (λ _, true))
           1000 2000 3000 123456
           (NextApi.mkRequest "POST" (Some "ann@x.com") None (Some "login")) []
           [NextOTP.mkIOTP "ann@x.com" "123456" "login" 601000 false]
           (NextApi.mkResponse 500 (Some false) "Failed to send OTP email"
              None));
    [vm_compute; reflexivity | by right | lia | reflexivity].
Defined.

(** X24. With the mailer of the repository, whose call of
    [nodemailer.createTransporter] throws, the handler that sends never
    answers 200 and never reports success, whatever the request, the
    collection, the accounts and the state of the database. *)
Theorem send_never_answers_200 db users login now hotp req c :
  NextApi.status
    (NextApi.send (NextApi.repository db users login) now hotp req c).2 ≠ 200 ∧
  NextApi.success
    (NextApi.send (NextApi.repository db users login) now hotp req c).2
    ≠ Some true.
Proof.
  unfold NextApi.send, NextApi.repository. simpl.
  destruct (bool_decide (NextApi.method req = "POST")); simpl; [|done].
  destruct db; simpl; [|done].
  destruct (NextApi.missing (NextApi.body_email req)); simpl; [done|].
  destruct (_ && negb _); [done|]. destruct (_ && _); [done|].
  by destruct (NextOTP.createOTP _ _ _ _ _) as [c' [i|err]].
Qed.

Lemma send_answers_200_iff_witness :
  NextApi.status
    (NextApi.send (NextApi.demo_services true) 1000 123456
       (NextApi.mkRequest "POST" (Some "new@x.com") None None) []).2 = 200.
Proof.
  apply (send_answers_200_iff (NextApi.demo_services true) 1000 123456
           (NextApi.mkRequest "POST" (Some "new@x.com") None None) []).
  split; [reflexivity|]. split; [reflexivity|].
  exists "new@x.com". simpl.
  split; [reflexivity|]. split; [discriminate|].
  split; [apply demo_purpose|]. split; [intros [[=]|[=]]|].
  split; [reflexivity | reflexivity].
Defined.

End OTP.
